(** * A shallow embedding of the 19box session core

    Go [time.Time] values are modelled as [Z] nanoseconds since an epoch and
    [time.Duration] values as [Z] nanoseconds.  [time.Time.Add] saturates on
    its seconds field only beyond +-2^63 seconds, far outside the times the
    session manipulates, so [Z] addition is exact for it.  Go [int] (64 bit)
    and [uint64] counters are modelled with their wrap-around written out. *)

From Stdlib Require Import ZArith Lia Bool Ascii String Sorted.
From stdpp Require Import base list gmap strings.
Open Scope Z_scope.

(* ------------------------------------------------------------------ *)
(** ** Machine integers *)

Definition int64_min : Z := - 2 ^ 63.
Definition int64_max : Z := 2 ^ 63 - 1.

(** Two's complement wrap-around of a Go [int] / [int64]. *)
Definition wrap_int64 (z : Z) : Z := (z + 2 ^ 63) mod 2 ^ 64 - 2 ^ 63.

(** Wrap-around of a Go [uint64]. *)
Definition wrap_uint64 (z : Z) : Z := z mod 2 ^ 64.

(* ------------------------------------------------------------------ *)
(** ** Filter results (filter/filter.go) *)

Record Result := mkResult { Accepted : bool; Code : string }.

Definition Accept : Result := mkResult true EmptyString.
Definition Reject (code : string) : Result := mkResult false code.

(* ------------------------------------------------------------------ *)
(** ** AcceptanceDoneFilter (filter/acceptance_done.go)

    The six getters of the Go struct are closures read once each during
    [Check]; the record holds the values they return at that call. *)

Record AcceptanceDoneFilter := mkAcceptanceDoneFilter {
  isAccepting : bool;
  getEndTime : option Z;
  getEndingDur : Z;
  getQueueDuration : Z;
  getCurrentRemain : Z;
  getNow : Z
}.

Definition acceptance_done_check (f : AcceptanceDoneFilter) : Result :=
  if negb (isAccepting f) then Reject "acceptance_done" else
  match getEndTime f with
  | None => Accept
  | Some endTime =>
      let deadline := endTime - getEndingDur f in
      let now := getNow f in
      (* now.After(deadline) *)
      if deadline <? now then Reject "time_limit_exceeded" else
      let playbackStartTime := now + getCurrentRemain f + getQueueDuration f in
      if (deadline <? playbackStartTime) || (playbackStartTime =? deadline)
      then Reject "time_limit_exceeded"
      else Accept
  end.

(** The acceptance gate as the specification words it (§4.2). *)
Definition acceptance_gate_spec (f : AcceptanceDoneFilter) : Result :=
  if negb (isAccepting f) then Reject "acceptance_done" else
  match getEndTime f with
  | None => Accept
  | Some scheduled_end =>
      let deadline := scheduled_end - getEndingDur f in
      let projected := getNow f + getCurrentRemain f + getQueueDuration f in
      if (getNow f >? deadline) || (projected >=? deadline)
      then Reject "time_limit_exceeded"
      else Accept
  end.

(* ------------------------------------------------------------------ *)
(** ** Tracks and requesters (domain/track) *)

Inductive RequesterType := RequesterTypeUser | RequesterTypeOpening
  | RequesterTypeEnding | RequesterTypeBGM | RequesterTypeSystem.

Definition requester_type_eqb (a b : RequesterType) : bool :=
  match a, b with
  | RequesterTypeUser, RequesterTypeUser
  | RequesterTypeOpening, RequesterTypeOpening
  | RequesterTypeEnding, RequesterTypeEnding
  | RequesterTypeBGM, RequesterTypeBGM
  | RequesterTypeSystem, RequesterTypeSystem => true
  | _, _ => false
  end.

Record Track := mkTrack {
  ID : string;
  Name : string;
  Artists : list string;
  Duration : Z
}.

Record Requester := mkRequester {
  RequesterID : string;
  RequesterName : string;
  RequesterKind : RequesterType
}.

Record QueuedTrack := mkQueuedTrack {
  QTrack : Track;
  QRequester : Requester;
  AddedAt : Z
}.

(* ------------------------------------------------------------------ *)
(** ** Go regular expressions used by [normalizeTrackName]

    The patterns of filter/user_pending.go only use single-character
    classes, greedy and lazy stars over such classes, bounded repetition
    and optional groups.  [re_match] is a backtracking matcher in
    continuation-passing style: alternatives are tried in priority order
    (greedy: one more iteration first; lazy: stop first), which is the
    leftmost-first semantics Go's [regexp] package implements.  The
    character-level model covers 7-bit ASCII names. *)

Inductive cls :=
  | CSpace            (* \s  = [\t\n\f\r ] in Go's RE2 syntax *)
  | CDigit            (* \d  = [0-9] *)
  | CAny              (* .   = any character except \n *)
  | CLit (c : ascii). (* a literal character *)

Definition cls_match (k : cls) (c : ascii) : bool :=
  let n := nat_of_ascii c in
  match k with
  | CSpace => (n =? 9)%nat || (n =? 10)%nat || (n =? 12)%nat
              || (n =? 13)%nat || (n =? 32)%nat
  | CDigit => (48 <=? n)%nat && (n <=? 57)%nat
  | CAny => negb (n =? 10)%nat
  | CLit d => Ascii.eqb c d
  end.

Inductive regex :=
  | REps
  | RCls (k : cls)
  | RSeq (r1 r2 : regex)
  | RStar (k : cls)                (* k*  greedy *)
  | RLazyStar (k : cls)            (* k*? lazy *)
  | RUpTo (k : cls) (n : nat)      (* k{0,n} greedy *)
  | ROpt (r : regex).              (* (r)? greedy *)

Definition cont := list ascii -> option (list ascii).

Fixpoint star_greedy (k : cls) (s : list ascii) (kc : cont) : option (list ascii) :=
  match s with
  | c :: s' =>
      if cls_match k c then
        match star_greedy k s' kc with Some r => Some r | None => kc s end
      else kc s
  | [] => kc s
  end.

Fixpoint star_lazy (k : cls) (s : list ascii) (kc : cont) : option (list ascii) :=
  match kc s with
  | Some r => Some r
  | None =>
      match s with
      | c :: s' => if cls_match k c then star_lazy k s' kc else None
      | [] => None
      end
  end.

Fixpoint upto_greedy (k : cls) (n : nat) (s : list ascii) (kc : cont) : option (list ascii) :=
  match n with
  | O => kc s
  | S n' =>
      match s with
      | c :: s' =>
          if cls_match k c then
            match upto_greedy k n' s' kc with Some r => Some r | None => kc s end
          else kc s
      | [] => kc s
      end
  end.

(** [re_match r s kc]: the first (by priority) way to match [r] at the
    start of [s] whose remaining input the continuation accepts. *)
Fixpoint re_match (r : regex) (s : list ascii) (kc : cont) : option (list ascii) :=
  match r with
  | REps => kc s
  | RCls k => match s with c :: s' => if cls_match k c then kc s' else None | [] => None end
  | RSeq r1 r2 => re_match r1 s (fun s' => re_match r2 s' kc)
  | RStar k => star_greedy k s kc
  | RLazyStar k => star_lazy k s kc
  | RUpTo k n => upto_greedy k n s kc
  | ROpt r1 => match re_match r1 s kc with Some x => Some x | None => kc s end
  end.

(** [regexp.ReplaceAllString]: scan left to right, replace each leftmost
    match and continue after it.  None of the patterns below matches the
    empty string (each contains a mandatory literal); on an empty match the
    replacement is inserted and one character is copied, as Go does. *)
Fixpoint replace_all_fuel (fuel : nat) (r : regex) (repl s : list ascii) : list ascii :=
  match fuel with
  | O => s
  | S fuel' =>
      match s with
      | [] => match re_match r [] (fun rest => Some rest) with Some _ => repl | None => [] end
      | c :: s' =>
          match re_match r s (fun rest => Some rest) with
          | Some rest =>
              if (length rest <? length s)%nat then repl ++ replace_all_fuel fuel' r repl rest
              else repl ++ c :: replace_all_fuel fuel' r repl s'
          | None => c :: replace_all_fuel fuel' r repl s'
          end
      end
  end.

Definition ReplaceAllString (r : regex) (s repl : list ascii) : list ascii :=
  replace_all_fuel (S (length s)) r repl s.

(** Building blocks for the patterns. *)
Fixpoint lit (s : string) : regex :=
  match s with
  | EmptyString => REps
  | String c s' => RSeq (RCls (CLit c)) (lit s')
  end.

Fixpoint seqs (rs : list regex) : regex :=
  match rs with
  | [] => REps
  | [r] => r
  | r :: rs' => RSeq r (seqs rs')
  end.

Definition sp_star : regex := RStar CSpace.                        (* \s* *)
Definition sp_plus : regex := RSeq (RCls CSpace) (RStar CSpace).   (* \s+ *)
Definition dash_opt : regex := ROpt (RCls (CLit "-")).             (* -?  *)
Definition any_lazy : regex := RLazyStar CAny.                     (* .*? *)
Definition digits4 : regex := seqs [RCls CDigit; RCls CDigit; RCls CDigit; RCls CDigit].

(** The twelve patterns of [normalizeTrackName], in source order. *)
Definition remasterPatterns : list regex := [
  (* \s*-?\s*\d{4}\s+remaster(ed)? *)
  seqs [sp_star; dash_opt; sp_star; digits4; sp_plus; lit "remaster"; ROpt (lit "ed")];
  (* \s*\(remaster(ed)?\s*\d{0,4}\) *)
  seqs [sp_star; lit "("; lit "remaster"; ROpt (lit "ed"); sp_star; RUpTo CDigit 4; lit ")"];
  (* \s*\[remaster(ed)?\s*\d{0,4}\] *)
  seqs [sp_star; lit "["; lit "remaster"; ROpt (lit "ed"); sp_star; RUpTo CDigit 4; lit "]"];
  (* \s*-?\s*remaster(ed)?(\s+version)? *)
  seqs [sp_star; dash_opt; sp_star; lit "remaster"; ROpt (lit "ed");
        ROpt (RSeq sp_plus (lit "version"))];
  (* \s*\(.*?remaster.*?\) *)
  seqs [sp_star; lit "("; any_lazy; lit "remaster"; any_lazy; lit ")"];
  (* \s*\[.*?remaster.*?\] *)
  seqs [sp_star; lit "["; any_lazy; lit "remaster"; any_lazy; lit "]"]
].

Definition versionPatterns : list regex := [
  (* \s*\(.*?version\) *)
  seqs [sp_star; lit "("; any_lazy; lit "version)"];
  (* \s*\(.*?edit\) *)
  seqs [sp_star; lit "("; any_lazy; lit "edit)"];
  (* \s*-?\s*live *)
  seqs [sp_star; dash_opt; sp_star; lit "live"];
  (* \s*\(live\) *)
  seqs [sp_star; lit "(live)"];
  (* \s*-?\s*radio\s+edit *)
  seqs [sp_star; dash_opt; sp_star; lit "radio"; sp_plus; lit "edit"];
  (* \s*-?\s*single\s+version *)
  seqs [sp_star; dash_opt; sp_star; lit "single"; sp_plus; lit "version"]
].

(** [strings.ToLower] on ASCII. *)
Definition ascii_lower (c : ascii) : ascii :=
  let n := nat_of_ascii c in
  if (65 <=? n)%nat && (n <=? 90)%nat then ascii_of_nat (n + 32) else c.

(** [unicode.IsSpace] on ASCII, used by [strings.TrimSpace]. *)
Definition is_trim_space (c : ascii) : bool :=
  let n := nat_of_ascii c in
  ((9 <=? n)%nat && (n <=? 13)%nat) || (n =? 32)%nat.

Definition trim_left (p : ascii -> bool) (s : list ascii) : list ascii :=
  match list_find (fun c => negb (p c)) s with
  | Some (i, _) => drop i s
  | None => []
  end.

Definition trim_right (p : ascii -> bool) (s : list ascii) : list ascii :=
  rev (trim_left p (rev s)).

Definition TrimSpace (s : list ascii) : list ascii :=
  trim_right is_trim_space (trim_left is_trim_space s).

(** [strings.TrimRight(s, " -")]. *)
Definition TrimRightSpaceDash (s : list ascii) : list ascii :=
  trim_right (fun c => Ascii.eqb c " " || Ascii.eqb c "-") s.

Definition apply_patterns (ps : list regex) (s : list ascii) : list ascii :=
  fold_left (fun acc r => ReplaceAllString r acc []) ps s.

Definition normalize_chars (s : list ascii) : list ascii :=
  let normalized := map ascii_lower s in
  let normalized := apply_patterns remasterPatterns normalized in
  let normalized := apply_patterns versionPatterns normalized in
  let normalized := TrimSpace normalized in
  let normalized := ReplaceAllString sp_plus normalized [" "%char] in
  TrimRightSpaceDash normalized.

Definition normalizeTrackName (name : string) : string :=
  string_of_list_ascii (normalize_chars (list_ascii_of_string name)).

(** [strings.EqualFold] on ASCII: equality after case folding. *)
Definition EqualFold (a b : string) : bool :=
  String.eqb (string_of_list_ascii (map ascii_lower (list_ascii_of_string a)))
             (string_of_list_ascii (map ascii_lower (list_ascii_of_string b))).

Definition isSameArtist (track1 track2 : Track) : bool :=
  match Artists track1, Artists track2 with
  | a1 :: _, a2 :: _ => EqualFold a1 a2
  | _, _ => false
  end.

Definition isRemaster (track1 track2 : Track) : bool :=
  if negb (String.eqb (normalizeTrackName (Name track1)) (normalizeTrackName (Name track2)))
  then false
  else isSameArtist track1 track2.

(** [DuplicateTrackFilter.Check] over the list [GetAllTracks] returns. *)
Fixpoint duplicate_track_check (queuedTracks : list QueuedTrack) (requestedTrack : Track) : Result :=
  match queuedTracks with
  | [] => mkResult true EmptyString
  | queued :: rest =>
      if String.eqb (ID (QTrack queued)) (ID requestedTrack) then mkResult false "duplicate_track"
      else if isRemaster (QTrack queued) requestedTrack then mkResult false "duplicate_track"
      else duplicate_track_check rest requestedTrack
  end.

(** The normalisation cases of filter/duplicate_track_test.go. *)
Example normalize_test_cases :
  map normalizeTrackName
    ["Bohemian Rhapsody"; "Bohemian Rhapsody - 2011 Remaster"; "Yesterday (Remastered 2023)";
     "Hotel California [Remastered]"; "Stairway to Heaven (Radio Edit)"; "Imagine - Live";
     "Let It Be (Single Version)"; "Hey Jude - Remastered Version";
     "Come Together (2019 Mix)"; "   Extra   Spaces   "]
  = ["bohemian rhapsody"; "bohemian rhapsody"; "yesterday"; "hotel california";
     "stairway to heaven"; "imagine"; "let it be"; "hey jude";
     "come together (2019 mix)"; "extra spaces"].
Proof. vm_compute. reflexivity. Qed.

(* ------------------------------------------------------------------ *)
(** ** Playback controller (playback/controller.go)

    Time is passed explicitly: every operation takes [now], the value of
    [toWallTime(time.Now())] at the call.  A running wall-clock timer is
    represented by the instant after which its callback fires ([Some d]);
    calling its cancel function resets the slot to [None].  The log
    [events] records every [sendEventLocked] call in order (the buffered
    channel and its drop-on-full policy are not modelled). *)

Inductive State := StateIdle | StatePlaying | StatePaused.

Definition state_eqb (a b : State) : bool :=
  match a, b with
  | StateIdle, StateIdle | StatePlaying, StatePlaying | StatePaused, StatePaused => true
  | _, _ => false
  end.

Inductive EventType := EventTrackStarted | EventTrackEnded | EventTrackSkipped
  | EventStateChanged | EventQueueDepleting | EventQueueEmpty.

Record Event := mkEvent {
  EvType : EventType;
  EvTrack : option QueuedTrack;
  EvState : State
}.

Record Config := mkConfig {
  DepletionThresholdSec : Z;
  NotificationDelay : Z;
  GapCorrection : Z
}.

Inductive PlaybackError := ErrNoTrack | ErrQueueEmpty | ErrNotPlaying | ErrNotPaused.

Record Controller := mkController {
  queue : list QueuedTrack;
  played : list QueuedTrack;
  currentTrack : option QueuedTrack;
  state : State;
  startTime : Z;
  scheduledStartTime : Z;
  notificationTime : option Z;          (* None = the zero time.Time *)
  pausedAt : option Z;
  pausedElapsed : Z;
  timerCancel : option Z;               (* track-end timer *)
  depletionTimerCancel : option Z;      (* depletion re-check timer *)
  notificationDelayTimerCancel : option (Z * option string);
      (* deadline, and the track id the callback compares against (if any) *)
  depletionNotified : bool;
  events : list Event
}.

Definition NewController : Controller :=
  mkController [] [] None StateIdle 0 0 None None 0 None None None false [].

(** Functional record updates, one per field the code writes. *)
Definition set_queue (q : list QueuedTrack) (c : Controller) : Controller :=
  mkController q (played c) (currentTrack c) (state c) (startTime c) (scheduledStartTime c)
    (notificationTime c) (pausedAt c) (pausedElapsed c) (timerCancel c)
    (depletionTimerCancel c) (notificationDelayTimerCancel c) (depletionNotified c) (events c).
Definition set_played (p : list QueuedTrack) (c : Controller) : Controller :=
  mkController (queue c) p (currentTrack c) (state c) (startTime c) (scheduledStartTime c)
    (notificationTime c) (pausedAt c) (pausedElapsed c) (timerCancel c)
    (depletionTimerCancel c) (notificationDelayTimerCancel c) (depletionNotified c) (events c).
Definition set_current (t : option QueuedTrack) (c : Controller) : Controller :=
  mkController (queue c) (played c) t (state c) (startTime c) (scheduledStartTime c)
    (notificationTime c) (pausedAt c) (pausedElapsed c) (timerCancel c)
    (depletionTimerCancel c) (notificationDelayTimerCancel c) (depletionNotified c) (events c).
Definition set_state (st : State) (c : Controller) : Controller :=
  mkController (queue c) (played c) (currentTrack c) st (startTime c) (scheduledStartTime c)
    (notificationTime c) (pausedAt c) (pausedElapsed c) (timerCancel c)
    (depletionTimerCancel c) (notificationDelayTimerCancel c) (depletionNotified c) (events c).
Definition set_start (sched start : Z) (c : Controller) : Controller :=
  mkController (queue c) (played c) (currentTrack c) (state c) start sched
    (notificationTime c) (pausedAt c) (pausedElapsed c) (timerCancel c)
    (depletionTimerCancel c) (notificationDelayTimerCancel c) (depletionNotified c) (events c).
Definition set_notificationTime (t : option Z) (c : Controller) : Controller :=
  mkController (queue c) (played c) (currentTrack c) (state c) (startTime c) (scheduledStartTime c)
    t (pausedAt c) (pausedElapsed c) (timerCancel c)
    (depletionTimerCancel c) (notificationDelayTimerCancel c) (depletionNotified c) (events c).
Definition set_pause (at_ : option Z) (elapsed : Z) (c : Controller) : Controller :=
  mkController (queue c) (played c) (currentTrack c) (state c) (startTime c) (scheduledStartTime c)
    (notificationTime c) at_ elapsed (timerCancel c)
    (depletionTimerCancel c) (notificationDelayTimerCancel c) (depletionNotified c) (events c).
Definition set_timer (t : option Z) (c : Controller) : Controller :=
  mkController (queue c) (played c) (currentTrack c) (state c) (startTime c) (scheduledStartTime c)
    (notificationTime c) (pausedAt c) (pausedElapsed c) t
    (depletionTimerCancel c) (notificationDelayTimerCancel c) (depletionNotified c) (events c).
Definition set_depletion_timer (t : option Z) (c : Controller) : Controller :=
  mkController (queue c) (played c) (currentTrack c) (state c) (startTime c) (scheduledStartTime c)
    (notificationTime c) (pausedAt c) (pausedElapsed c) (timerCancel c)
    t (notificationDelayTimerCancel c) (depletionNotified c) (events c).
Definition set_notification_timer (t : option (Z * option string)) (c : Controller) : Controller :=
  mkController (queue c) (played c) (currentTrack c) (state c) (startTime c) (scheduledStartTime c)
    (notificationTime c) (pausedAt c) (pausedElapsed c) (timerCancel c)
    (depletionTimerCancel c) t (depletionNotified c) (events c).
Definition set_notified (b : bool) (c : Controller) : Controller :=
  mkController (queue c) (played c) (currentTrack c) (state c) (startTime c) (scheduledStartTime c)
    (notificationTime c) (pausedAt c) (pausedElapsed c) (timerCancel c)
    (depletionTimerCancel c) (notificationDelayTimerCancel c) b (events c).

Definition sendEventLocked (e : Event) (c : Controller) : Controller :=
  mkController (queue c) (played c) (currentTrack c) (state c) (startTime c) (scheduledStartTime c)
    (notificationTime c) (pausedAt c) (pausedElapsed c) (timerCancel c)
    (depletionTimerCancel c) (notificationDelayTimerCancel c) (depletionNotified c)
    (events c ++ [e]).

(** [startWallClockTimer(duration, ...)] started at [now]. *)
Definition wall_clock_deadline (now duration : Z) : Z := now + duration.

Definition getRemainingDurationLocked (c : Controller) (now : Z) : Z :=
  match currentTrack c with
  | None => 0
  | Some qt =>
      if now <? startTime c then Duration (QTrack qt) else
      let elapsed := now - startTime c - pausedElapsed c in
      let elapsed :=
        match state c, pausedAt c with
        | StatePaused, Some p => elapsed - (now - p)
        | _, _ => elapsed
        end in
      let remaining := Duration (QTrack qt) - elapsed in
      if remaining <? 0 then 0 else remaining
  end.

Definition sum_durations (qs : list QueuedTrack) : Z :=
  fold_left (fun total qt => wrap_int64 (total + Duration (QTrack qt))) qs 0.

(** [GetTotalDuration]. *)
Definition GetTotalDuration (c : Controller) : Z := sum_durations (queue c).

(** [totalRemaining] as computed in [checkDepletionLocked]. *)
Definition total_remaining (c : Controller) (now : Z) : Z :=
  fold_left (fun total qt => wrap_int64 (total + Duration (QTrack qt))) (queue c)
    (match currentTrack c with Some _ => getRemainingDurationLocked c now | None => 0 end).

Definition threshold (cfg : Config) : Z := wrap_int64 (DepletionThresholdSec cfg * 1000000000).

Definition checkDepletionLocked (cfg : Config) (c : Controller) (now : Z) : Controller :=
  if depletionNotified c then c else
  let c := set_depletion_timer None c in
  let totalRemaining := total_remaining c now in
  let thr := threshold cfg in
  if (totalRemaining <? thr) && (0 <? totalRemaining) then
    sendEventLocked (mkEvent EventQueueDepleting (currentTrack c) (state c)) (set_notified true c)
  else if (thr <? totalRemaining) && state_eqb (state c) StatePlaying then
    set_depletion_timer (Some (wall_clock_deadline now (totalRemaining - thr))) c
  else c.

Definition playNextLocked (cfg : Config) (c : Controller) (now : Z)
    : Controller * option PlaybackError :=
  match queue c with
  | [] =>
      let c := set_state StateIdle c in
      (sendEventLocked (mkEvent EventQueueEmpty None (state c)) c, Some ErrQueueEmpty)
  | qt :: rest =>
      let c := set_queue rest c in
      let c := match currentTrack c with
               | Some cur => set_played (played c ++ [cur]) c
               | None => c
               end in
      let c := set_state StatePlaying (set_pause None 0 (set_current (Some qt) c)) in
      let notificationDelay := NotificationDelay cfg in
      let gapCorrection := GapCorrection cfg in
      let startBase := if 0 <? gapCorrection then now + gapCorrection else now in
      let c := set_start startBase startBase c in
      (* startTrackTimer(qt.Track.Duration + gapCorrection) *)
      let c := set_timer (Some (wall_clock_deadline now
                                  (wrap_int64 (Duration (QTrack qt) + gapCorrection)))) c in
      let c := checkDepletionLocked cfg c now in
      if 0 <? notificationDelay then
        let c := set_notificationTime (Some (scheduledStartTime c + notificationDelay)) c in
        let totalDelay := wrap_int64 (notificationDelay + gapCorrection) in
        (set_notification_timer (Some (wall_clock_deadline now totalDelay, Some (ID (QTrack qt)))) c,
         None)
      else
        (sendEventLocked (mkEvent EventTrackStarted (currentTrack c) (state c)) c, None)
  end.

Definition onTrackEndLocked (cfg : Config) (c : Controller) (now : Z) : Controller :=
  match currentTrack c with
  | None => c
  | Some endedTrack =>
      let c := set_timer None c in
      let c := set_played (played c ++ [endedTrack]) c in
      let c := set_pause None 0 (set_current None c) in
      let c := sendEventLocked (mkEvent EventTrackEnded (Some endedTrack) (state c)) c in
      fst (playNextLocked cfg c now)
  end.

Definition Pause (c : Controller) (now : Z) : Controller * option PlaybackError :=
  match currentTrack c with
  | None => (c, Some ErrNoTrack)
  | Some _ =>
      if negb (state_eqb (state c) StatePlaying) then (c, Some ErrNotPlaying) else
      let c := set_notification_timer None (set_depletion_timer None (set_timer None c)) in
      let c := if now <? startTime c
               then set_start (scheduledStartTime c) now
                      (set_pause (pausedAt c) (pausedElapsed c + (startTime c - now)) c)
               else c in
      let c := set_state StatePaused (set_pause (Some now) (pausedElapsed c) c) in
      (sendEventLocked (mkEvent EventStateChanged (currentTrack c) (state c)) c, None)
  end.

Definition resumeLocked (cfg : Config) (c : Controller) (now : Z) : Controller * option PlaybackError :=
  match currentTrack c with
  | None => (c, Some ErrNoTrack)
  | Some _ =>
      if negb (state_eqb (state c) StatePaused) then (c, Some ErrNotPaused) else
      let elapsed := match pausedAt c with
                     | Some p => pausedElapsed c + (now - p)
                     | None => pausedElapsed c
                     end in
      let c := set_state StatePlaying (set_pause None elapsed c) in
      let remaining := getRemainingDurationLocked c now in
      if remaining <=? 0 then (onTrackEndLocked cfg c now, None) else
      let c := match notificationTime c with
               | Some nt => if now <? nt
                            then set_notification_timer (Some (wall_clock_deadline now (nt - now), None)) c
                            else c
               | None => c
               end in
      let c := set_timer (Some (wall_clock_deadline now remaining)) c in
      let c := checkDepletionLocked cfg c now in
      (sendEventLocked (mkEvent EventStateChanged (currentTrack c) (state c)) c, None)
  end.

Definition Play (cfg : Config) (c : Controller) (now : Z) : Controller * option PlaybackError :=
  match state c with
  | StatePlaying => (c, None)
  | StatePaused => resumeLocked cfg c now
  | StateIdle => playNextLocked cfg c now
  end.

Definition Skip (cfg : Config) (c : Controller) (now : Z) : Controller * option PlaybackError :=
  match currentTrack c with
  | None => (c, Some ErrNoTrack)
  | Some skippedTrack =>
      let c := set_notification_timer None (set_timer None c) in
      let c := set_notificationTime None (set_pause None 0 (set_state StateIdle (set_current None c))) in
      let c := sendEventLocked (mkEvent EventTrackSkipped (Some skippedTrack) (state c)) c in
      playNextLocked cfg c now
  end.

(** [Stop] of the controller. *)
Definition StopController (c : Controller) : Controller :=
  let c := set_depletion_timer None (set_timer None c) in
  set_notificationTime None (set_pause None 0 (set_state StateIdle (set_current None c))).

Definition Enqueue (cfg : Config) (c : Controller) (qt : QueuedTrack) (now : Z) : Controller :=
  let c := set_notified false (set_queue (queue c ++ [qt]) c) in
  checkDepletionLocked cfg c now.

Definition EnqueueMultiple (cfg : Config) (c : Controller) (qts : list QueuedTrack) (now : Z)
    : Controller :=
  let c := set_notified false (set_queue (queue c ++ qts) c) in
  checkDepletionLocked cfg c now.

Definition ClearQueue (c : Controller) : list QueuedTrack * Controller :=
  let removed := queue c in
  (removed, set_queue [] c).

(** [GetAllTracks]: played + current + queued. *)
Definition GetAllTracks (c : Controller) : list QueuedTrack :=
  played c ++ match currentTrack c with Some t => [t] | None => [] end ++ queue c.

(** A wall-clock timer callback: the track-end timer fires once the wall
    clock is strictly after its deadline. *)
Definition fire_track_timer (cfg : Config) (c : Controller) (now : Z) : option Controller :=
  match timerCancel c with
  | Some d => if d <? now then Some (onTrackEndLocked cfg c now) else None
  | None => None
  end.


(* ------------------------------------------------------------------ *)
(** ** Notification hub (notification/manager.go) *)

Inductive NotificationType := NOTIFICATION_TYPE_INITIAL_STATE
  | NOTIFICATION_TYPE_CHANGE_STATE | NOTIFICATION_TYPE_CHANGE_TRACK.

Record Notification := mkNotification {
  SequenceNo : Z;
  NType : NotificationType
}.

Record NotificationManager := mkNotificationManager {
  sequenceNo : Z;              (* uint64, guarded by sequenceNoMu *)
  subscriptions : list nat     (* subscription ids, guarded by mu *)
}.

Definition NewNotificationManager : NotificationManager := mkNotificationManager 0 [].

(** The critical section on [sequenceNoMu]: [m.sequenceNo++; return m.sequenceNo]. *)
Definition NextSequenceNo (m : NotificationManager) : Z * NotificationManager :=
  let n := wrap_uint64 (sequenceNo m + 1) in
  (n, mkNotificationManager n (subscriptions m)).

(** Who draws a number: [Broadcast] (lines 72-75) runs the same critical
    section as [NextSequenceNo]; the subscribe-time allocation is a call
    of [NextSequenceNo]. *)
Inductive SeqAllocator := ByBroadcast | ByNextSequenceNo | BySubscribe.

Definition allocate (who : SeqAllocator) (m : NotificationManager) : Z * NotificationManager :=
  match who with
  | ByBroadcast => let n := wrap_uint64 (sequenceNo m + 1) in
                   (n, mkNotificationManager n (subscriptions m))
  | ByNextSequenceNo | BySubscribe => NextSequenceNo m
  end.

(** The numbers handed out by a sequence of allocations, in allocation order. *)
Fixpoint run_allocations (whos : list SeqAllocator) (m : NotificationManager)
    : list Z * NotificationManager :=
  match whos with
  | [] => ([], m)
  | w :: ws =>
      let (n, m') := allocate w m in
      let (ns, m'') := run_allocations ws m' in
      (n :: ns, m'')
  end.

(** *** Subscription protocol (connect/listener_service.go, SubscribeNotifications)

    Concurrency is modelled by interleaving the critical sections of the
    code.  [Broadcast] consists of two of them: drawing the number under
    [sequenceNoMu] (lines 72-78) and copying the subscription map under
    [mu.RLock] (lines 80-86) followed by the sends; the sends are taken to
    happen at once, in subscription order.  A subscriber runs
    [Subscribe], sends INITIAL_STATE on its stream, then [Flush]es its
    adapter.  The adapter ([notificationStreamAdapter]) buffers while not
    ready. *)

Record Adapter := mkAdapter { ready : bool; buffer : list Notification }.

Inductive SubPhase := SubInit | SubSubscribed (seqNo : Z) | SubInitialSent | SubFlushed.

Record World := mkWorld {
  hub : NotificationManager;
  adapters : gmap nat Adapter;
  streams : gmap nat (list Notification);     (* what reached each subscriber's stream *)
  pending_broadcasts : gmap nat Notification; (* broadcasts that drew a number, not yet sent *)
  sub_phase : gmap nat SubPhase
}.

Definition InitialWorld : World := mkWorld NewNotificationManager ∅ ∅ ∅ ∅.

Definition stream_of (w : World) (i : nat) : list Notification :=
  default [] (streams w !! i).

Definition phase_of (w : World) (i : nat) : SubPhase :=
  default SubInit (sub_phase w !! i).

(** [notificationStreamAdapter.Send]. *)
Definition adapter_send (i : nat) (n : Notification) (w : World) : World :=
  match adapters w !! i with
  | Some a =>
      if ready a then
        mkWorld (hub w) (adapters w) (<[i := stream_of w i ++ [n]]> (streams w))
                (pending_broadcasts w) (sub_phase w)
      else
        mkWorld (hub w) (<[i := mkAdapter false (buffer a ++ [n])]> (adapters w))
                (streams w) (pending_broadcasts w) (sub_phase w)
  | None => w
  end.

Inductive Label :=
  | BroadcastDraw (b : nat) (ty : NotificationType)  (* Broadcast, lines 72-78 *)
  | BroadcastSend (b : nat)                          (* Broadcast, lines 80-114 *)
  | SubSubscribe (i : nat)                           (* notifManager.Subscribe(adapter) *)
  | SubSendInitial (i : nat)                         (* stream.Send(initialNotification) *)
  | SubFlush (i : nat).                              (* adapter.Flush() *)

(** Modelled from the spec: [Manager.Subscribe] returning
    [(subscriptionID, sequenceNo)], which SubscribeNotifications calls but
    notification/manager.go does not define.  Per §4.5 it registers the
    subscriber and allocates its sequence number from the shared counter;
    both are done here in one atomic step. *)
Definition subscribe_with_seq (i : nat) (w : World) : World :=
  let (n, m) := NextSequenceNo (hub w) in
  mkWorld (mkNotificationManager (sequenceNo m) (subscriptions m ++ [i]))
          (<[i := mkAdapter false []]> (adapters w))
          (streams w) (pending_broadcasts w)
          (<[i := SubSubscribed n]> (sub_phase w)).

Definition step (w : World) (l : Label) : option World :=
  match l with
  | BroadcastDraw b ty =>
      match pending_broadcasts w !! b with
      | Some _ => None
      | None =>
          let (n, m) := NextSequenceNo (hub w) in
          Some (mkWorld m (adapters w) (streams w)
                  (<[b := mkNotification n ty]> (pending_broadcasts w)) (sub_phase w))
      end
  | BroadcastSend b =>
      match pending_broadcasts w !! b with
      | None => None
      | Some n =>
          let subs := subscriptions (hub w) in
          let w' := mkWorld (hub w) (adapters w) (streams w)
                      (delete b (pending_broadcasts w)) (sub_phase w) in
          Some (fold_left (fun acc i => adapter_send i n acc) subs w')
      end
  | SubSubscribe i =>
      match phase_of w i with
      | SubInit => Some (subscribe_with_seq i w)
      | _ => None
      end
  | SubSendInitial i =>
      match phase_of w i with
      | SubSubscribed n =>
          Some (mkWorld (hub w) (adapters w)
                  (<[i := stream_of w i ++ [mkNotification n NOTIFICATION_TYPE_INITIAL_STATE]]> (streams w))
                  (pending_broadcasts w) (<[i := SubInitialSent]> (sub_phase w)))
      | _ => None
      end
  | SubFlush i =>
      match phase_of w i, adapters w !! i with
      | SubInitialSent, Some a =>
          Some (mkWorld (hub w) (<[i := mkAdapter true []]> (adapters w))
                  (<[i := stream_of w i ++ buffer a]> (streams w))
                  (pending_broadcasts w) (<[i := SubFlushed]> (sub_phase w)))
      | _, _ => None
      end
  end.

Fixpoint run (w : World) (ls : list Label) : option World :=
  match ls with
  | [] => Some w
  | l :: ls' => match step w l with Some w' => run w' ls' | None => None end
  end.

(* ------------------------------------------------------------------ *)
(** ** Listener sessions (domain/listener/session.go) *)

Record Session := mkSession {
  SessID : string;
  DisplayName : string;
  ExternalUserID : string;
  PendingTracks : Z;          (* Go int, 64 bit *)
  IsKicked : bool;
  VIPStatus : bool;
  TotalRequests : Z;          (* Go int, 64 bit *)
  LastRequestAt : option Z
}.

Definition NewSession (id displayName externalUserID : string) (isVIP : bool) : Session :=
  mkSession id displayName externalUserID 0 false isVIP 0 None.

Definition IncrementPendingTracks (s : Session) (now : Z) : Session :=
  mkSession (SessID s) (DisplayName s) (ExternalUserID s)
    (wrap_int64 (PendingTracks s + 1)) (IsKicked s) (VIPStatus s)
    (wrap_int64 (TotalRequests s + 1)) (Some now).

Definition DecrementPendingTracks (s : Session) : Session :=
  if 0 <? PendingTracks s then
    mkSession (SessID s) (DisplayName s) (ExternalUserID s)
      (wrap_int64 (PendingTracks s - 1)) (IsKicked s) (VIPStatus s)
      (TotalRequests s) (LastRequestAt s)
  else s.

(** *** Listener registry (session/registry) *)

Definition ListenerRegistry := gmap string Session.

Inductive RegistryError := ErrInvalidListener | ErrListenerKicked.

Definition registry_get (r : ListenerRegistry) (listenerID : string)
    : Session + RegistryError :=
  match r !! listenerID with Some s => inl s | None => inr ErrInvalidListener end.

Definition registry_increment_pending (r : ListenerRegistry) (listenerID : string) (now : Z)
    : ListenerRegistry * option RegistryError :=
  match r !! listenerID with
  | Some s => (<[listenerID := IncrementPendingTracks s now]> r, None)
  | None => (r, Some ErrInvalidListener)
  end.

Definition registry_decrement_pending (r : ListenerRegistry) (listenerID : string)
    : ListenerRegistry :=
  match r !! listenerID with
  | Some s => <[listenerID := DecrementPendingTracks s]> r
  | None => r
  end.

(* ------------------------------------------------------------------ *)
(** ** Session lifecycle (session/state and session/manager.go) *)

Inductive Phase := PhaseWaiting | PhaseActive | PhaseEnding | PhaseTerminated.

Definition phase_rank (p : Phase) : Z :=
  match p with PhaseWaiting => 0 | PhaseActive => 1 | PhaseEnding => 2 | PhaseTerminated => 3 end.

Definition phase_eqb (a b : Phase) : bool := phase_rank a =? phase_rank b.

Inductive AcceptingState := NotAccepting | Accepting.

(** The fields of [state.Manager] the lifecycle writes. *)
Record SessionState := mkSessionState { phase : Phase; accepting : AcceptingState }.

Definition NewSessionState : SessionState := mkSessionState PhaseWaiting NotAccepting.

Definition SetPhase (p : Phase) (s : SessionState) : SessionState := mkSessionState p (accepting s).
Definition StartAccepting (s : SessionState) : SessionState := mkSessionState (phase s) Accepting.
Definition StopAccepting (s : SessionState) : SessionState := mkSessionState (phase s) NotAccepting.

Definition CanAcceptRequests (s : SessionState) : bool :=
  phase_eqb (phase s) PhaseActive &&
  match accepting s with Accepting => true | NotAccepting => false end.

(** [Manager.Start] on its success path.  Up to line 316 it writes only
    times, keywords, the playlist and the ending duration; then it runs
    [SetPhase(PhaseActive)] and [StartAccepting()], with no test of the
    current phase.  Its error returns leave the phase untouched. *)
Definition Start (s : SessionState) : SessionState :=
  StartAccepting (SetPhase PhaseActive s).

(** The phase effect of [Manager.transitionToEnding]. *)
Definition transitionToEnding (s : SessionState) : SessionState :=
  if negb (phase_eqb (phase s) PhaseActive) then s else
  SetPhase PhaseEnding (StopAccepting s).

Definition Stop (s : SessionState) : SessionState :=
  match phase s with
  | PhaseTerminated => s
  | PhaseWaiting => SetPhase PhaseTerminated s
  | PhaseEnding => s
  | PhaseActive => transitionToEnding s
  end.

Definition StopImmediate (s : SessionState) : SessionState :=
  match phase s with
  | PhaseTerminated => s
  | PhaseWaiting => SetPhase PhaseTerminated s
  | PhaseEnding => s
  | PhaseActive => StopAccepting (SetPhase PhaseTerminated s)
  end.

Definition terminateSession (s : SessionState) : SessionState :=
  match phase s with
  | PhaseTerminated => s
  | _ => StopAccepting (SetPhase PhaseTerminated s)
  end.

(** [endTimeChecker] once the deadline has passed. *)
Definition onDeadline (s : SessionState) : SessionState :=
  if phase_eqb (phase s) PhaseActive then transitionToEnding s else s.

(** [onQueueEmpty]: terminate when ending (the BGM refill branch does not
    touch the lifecycle). *)
Definition onQueueEmpty (s : SessionState) : SessionState :=
  if phase_eqb (phase s) PhaseEnding then terminateSession s else s.

Inductive SessionOp := OpStart | OpStop | OpStopImmediate | OpDeadline | OpQueueEmpty.

Definition apply_op (o : SessionOp) (s : SessionState) : SessionState :=
  match o with
  | OpStart => Start s
  | OpStop => Stop s
  | OpStopImmediate => StopImmediate s
  | OpDeadline => onDeadline s
  | OpQueueEmpty => onQueueEmpty s
  end.

(** The states visited by a sequence of operations, the start included. *)
Fixpoint trace (s : SessionState) (os : list SessionOp) : list SessionState :=
  match os with
  | [] => [s]
  | o :: os' => s :: trace (apply_op o s) os'
  end.

(* ------------------------------------------------------------------ *)
(** ** Filter chain (filter/chain.go) *)

Record TrackRequest := mkTrackRequest { ReqListenerID : string; ReqTrackID : string }.

(** A filter as the chain sees it: [AppliesTo] and [Check].  The filters'
    dependencies (state store, controller, clock) are read inside [check]
    during one [Execute]. *)
Record Filter := mkFilter {
  AppliesTo : RequesterType -> bool;
  check : TrackRequest -> Track -> Session -> Result
}.

Fixpoint Execute (filters : list Filter) (req : TrackRequest) (t : Track) (l : Session)
    (requesterType : RequesterType) : Result :=
  match filters with
  | [] => Accept
  | f :: fs =>
      if negb (AppliesTo f requesterType) then Execute fs req t l requesterType else
      let result := check f req t l in
      if negb (Accepted result) then result else Execute fs req t l requesterType
  end.

(* ------------------------------------------------------------------ *)
(** ** Session manager: RequestTrack and the ending transition *)

Record SessionManager := mkSessionManager {
  listenerReg : ListenerRegistry;
  playback : Controller;
  recentArtists : list string;
  maxRecentArtists : nat
}.

Definition addRecentArtistsLocked (maxRecent : nat) (recent artists : list string) : list string :=
  fold_left (fun acc artist =>
               let acc := artist :: acc in
               if (maxRecent <? length acc)%nat then take maxRecent acc else acc)
            artists recent.

Section RequestTrack.
(** The catalog lookup [spotify.GetTrack(ctx, trackID, market)]:
    [None] stands for a returned error. *)
Variable GetTrack : string -> option Track.
Variable filterChain : list Filter.
Variable cfg : Config.

(** [Manager.RequestTrack]; the returned triple is (accepted, code, error).
    The playlist append's error is only logged, and the [Play] call is
    started in a goroutine, so neither affects the result. *)
Definition RequestTrack (m : SessionManager) (listenerID trackID : string) (now : Z)
    : (bool * string * option string) * SessionManager :=
  match registry_get (listenerReg m) listenerID with
  | inr _ => ((false, "invalid_listener", None), m)
  | inl session =>
      match GetTrack trackID with
      | None => ((false, "track_not_found", None), m)
      | Some t =>
          let req := mkTrackRequest listenerID trackID in
          let result := Execute filterChain req t session RequesterTypeUser in
          if negb (Accepted result) then ((false, Code result, None), m) else
          let qt := mkQueuedTrack t
                      (mkRequester (SessID session) (DisplayName session) RequesterTypeUser) now in
          let pb := Enqueue cfg (playback m) qt now in
          let recent := addRecentArtistsLocked (maxRecentArtists m) (recentArtists m) (Artists t) in
          let (reg, _) := registry_increment_pending (listenerReg m) listenerID now in
          ((true, EmptyString, None), mkSessionManager reg pb recent (maxRecentArtists m))
      end
  end.
End RequestTrack.

(** The controller side of [transitionToEnding] once the ending playlist
    has loaded non-empty: [ClearQueue], then [enqueuePlaylistTracks], which
    calls [Enqueue] once per track. *)
Definition enqueuePlaylistTracks (cfg : Config) (c : Controller) (tracks : list Track)
    (systemID requesterName : string) (requesterType : RequesterType) (now : Z) : Controller :=
  fold_left (fun acc t =>
               Enqueue cfg acc (mkQueuedTrack t (mkRequester systemID requesterName requesterType) now) now)
            tracks c.

Definition ending_swap (cfg : Config) (c : Controller) (tracks : list Track)
    (systemID endingName : string) (now : Z) : list QueuedTrack * Controller :=
  let (removed, c) := ClearQueue c in
  (removed, enqueuePlaylistTracks cfg c tracks systemID endingName RequesterTypeEnding now).

(* ------------------------------------------------------------------ *)
(** ** More of the controller (playback/controller.go) *)

(** [GetAllTrackIDs]: the IDs of the played, current and queued tracks. *)
Definition GetAllTrackIDs (c : Controller) : list string :=
  map (fun qt => ID (QTrack qt)) (played c) ++
  match currentTrack c with Some qt => [ID (QTrack qt)] | None => [] end ++
  map (fun qt => ID (QTrack qt)) (queue c).

(** [IsInQueue]: the current track and the queue, not the played ones. *)
Definition IsInQueue (c : Controller) (trackID : string) : bool :=
  match currentTrack c with
  | Some cur => String.eqb (ID (QTrack cur)) trackID
  | None => false
  end || existsb (fun qt => String.eqb (ID (QTrack qt)) trackID) (queue c).

Definition IsQueueEmpty (c : Controller) : bool := (length (queue c) =? 0)%nat.


(* ------------------------------------------------------------------ *)
(** ** More of the listener sessions and the registry *)

Definition Kick (s : Session) : Session :=
  mkSession (SessID s) (DisplayName s) (ExternalUserID s) (PendingTracks s) true
    (VIPStatus s) (TotalRequests s) (LastRequestAt s).

Definition CanRequest (s : Session) : bool :=
  if IsKicked s then false else
  if VIPStatus s then true else
  PendingTracks s =? 0.

Definition registry_validate (r : ListenerRegistry) (listenerID : string) : option RegistryError :=
  match r !! listenerID with
  | None => Some ErrInvalidListener
  | Some s => if IsKicked s then Some ErrListenerKicked else None
  end.

Definition registry_kick (r : ListenerRegistry) (listenerID : string)
    : ListenerRegistry * option RegistryError :=
  match r !! listenerID with
  | None => (r, Some ErrInvalidListener)
  | Some s => (<[listenerID := Kick s]> r, None)
  end.

(** The loop of [ListenerRegistry.Join] over the map.  Go leaves the
    iteration order unspecified: [order] lists the keys in the order one
    run visits them. *)
Fixpoint find_joined (order : list string) (r : ListenerRegistry) (externalUserID : string)
    : option string :=
  match order with
  | [] => None
  | k :: ks =>
      match r !! k with
      | Some s =>
          if String.eqb (ExternalUserID s) externalUserID && negb (IsKicked s)
          then Some (SessID s) else find_joined ks r externalUserID
      | None => find_joined ks r externalUserID
      end
  end.

(** [ListenerRegistry.Join]; [newID] is the [uuid.New()] of this call. *)
Definition registry_join (order : list string) (newID : string) (r : ListenerRegistry)
    (displayName externalUserID : string) (isVIP : bool) : string * ListenerRegistry :=
  match (if String.eqb externalUserID EmptyString then None
         else find_joined order r externalUserID) with
  | Some id => (id, r)
  | None => (newID, <[newID := NewSession newID displayName externalUserID isVIP]> r)
  end.

(** [Config.IsAdminDisplayName] over [Admin.DisplayNames]. *)
Definition IsAdminDisplayName (adminDisplayNames : list string) (displayName : string) : bool :=
  existsb (fun name => String.eqb name displayName) adminDisplayNames.

Inductive ManagerError := ErrSessionNotRunning.

(** [Manager.Join]. *)
Definition ManagerJoin (ph : Phase) (adminDisplayNames order : list string) (newID : string)
    (r : ListenerRegistry) (displayName externalUserID : string)
    : (string * option ManagerError) * ListenerRegistry :=
  if phase_eqb ph PhaseTerminated then ((EmptyString, Some ErrSessionNotRunning), r) else
  let isVIP := IsAdminDisplayName adminDisplayNames displayName in
  let (id, r') := registry_join order newID r displayName externalUserID isVIP in
  ((id, None), r').

(* ------------------------------------------------------------------ *)
(** ** The filters of the chain (filter/*.go) *)

Definition is_user (ty : RequesterType) : bool := requester_type_eqb ty RequesterTypeUser.

Definition UserPendingFilter : Filter :=
  mkFilter is_user
    (fun _ _ l => if VIPStatus l then Accept
                  else if 0 <? PendingTracks l then Reject "user_pending" else Accept).

Definition KickedFilter : Filter :=
  mkFilter is_user (fun _ _ l => if IsKicked l then Reject "kicked" else Accept).

(** [MarketFilter]; [Track.IsAvailableInMarket] is not in the sources and
    is a parameter. *)
Definition MarketFilter (market : string) (IsAvailableInMarket : Track -> string -> bool) : Filter :=
  mkFilter (fun _ => true)
    (fun _ t _ => if String.eqb market EmptyString then Accept
                  else if negb (IsAvailableInMarket t market) then Reject "market_restriction"
                  else Accept).

Definition AcceptanceFilter (f : AcceptanceDoneFilter) : Filter :=
  mkFilter is_user (fun _ _ _ => acceptance_done_check f).

(** [DuplicateTrackFilter] over the [GetAllTracks] it reads. *)
Definition DuplicateFilter (queuedTracks : list QueuedTrack) : Filter :=
  mkFilter is_user (fun _ t _ => duplicate_track_check queuedTracks t).

(** [Manager.setupFilters].  The enabled flags are [IsFilterEnabled] of
    the configuration.  The duration-limit filter is not in the sources:
    [durationLimit] is whatever filter it is, when enabled and its
    settings validate. *)
Definition setupFilters (acc : AcceptanceDoneFilter) (market : string)
    (IsAvailableInMarket : Track -> string -> bool) (allTracks : list QueuedTrack)
    (kickedEnabled pendingEnabled duplicateEnabled : bool) (durationLimit : option Filter)
    : list Filter :=
  [AcceptanceFilter acc; MarketFilter market IsAvailableInMarket] ++
  (if kickedEnabled then [KickedFilter] else []) ++
  (if pendingEnabled then [UserPendingFilter] else []) ++
  (if duplicateEnabled then [DuplicateFilter allTracks] else []) ++
  match durationLimit with Some f => [f] | None => [] end.

(** [Manager.onTrackStarted] on the registry (the broadcast aside). *)
Definition onTrackStarted (m : SessionManager) (qt : option QueuedTrack) : SessionManager :=
  match qt with
  | None => m
  | Some q =>
      mkSessionManager (registry_decrement_pending (listenerReg m) (RequesterID (QRequester q)))
        (playback m) (recentArtists m) (maxRecentArtists m)
  end.

(* ------------------------------------------------------------------ *)
(** ** BGM candidates (bgm/*.go) *)

Record CandidateWithSource := mkCandidate { CTrack : Track; CDisplayName : string }.

(** Indexing a Go [map[string]bool]: a missing key reads [false]. *)
Definition flag_of (m : gmap string bool) (k : string) : bool := default false (m !! k).

(** [LastFmProvider.deduplicateByID]. *)
Definition deduplicateByID (tracks : list Track) : list Track :=
  snd (fold_left (fun (acc : gmap string bool * list Track) t =>
                    let (seen, result) := acc in
                    if negb (flag_of seen (ID t)) then (<[ID t := true]> seen, result ++ [t])
                    else acc)
                 tracks (∅, [])).

Definition contains (tracks : list Track) (id : string) : bool :=
  existsb (fun t => String.eqb (ID t) id) tracks.

Record PlaylistProvider := mkPlaylistProvider { cache : list Track; candidateCount : Z }.

(** [PlaylistProvider.GetCandidates]; [GetPlaylistTracksRandom needed] is
    the catalog call, [None] standing for its error. *)
Definition playlist_GetCandidates (GetPlaylistTracksRandom : Z -> option (list Track))
    (p : PlaylistProvider) (count : Z) (existingTrackIDs : gmap string bool)
    : option (list Track) * PlaylistProvider :=
  if count <=? 0 then (Some [], p) else
  let availableFromCache := List.filter (fun t => negb (flag_of existingTrackIDs (ID t))) (cache p) in
  let fetched :=
    if Z.of_nat (length availableFromCache) <? count then
      match GetPlaylistTracksRandom (candidateCount p - Z.of_nat (length availableFromCache)) with
      | None => None
      | Some newTracks =>
          Some (fold_left (fun acc t =>
                             if negb (flag_of existingTrackIDs (ID t)) && negb (contains acc (ID t))
                             then acc ++ [t] else acc)
                          newTracks availableFromCache)
      end
    else Some availableFromCache in
  match fetched with
  | None => (None, p)
  | Some available =>
      if (length available =? 0)%nat then (Some [], p) else
      let returnCount := Z.to_nat (Z.min count (Z.of_nat (length available))) in
      (Some (take returnCount available),
       mkPlaylistProvider (drop returnCount available) (candidateCount p))
  end.

(** A provider as the chain calls it: its [GetCandidates] at the moment of
    the call, [None] standing for an error. *)
Record ProviderWithMetadata := mkProviderWithMetadata {
  Provider : Z -> list Track -> gmap string bool -> option (list Track);
  PDisplayName : string
}.

(** The loop of [ProviderChain.GetCandidates]. *)
Fixpoint chain_collect (providers : list ProviderWithMetadata) (count : Z) (seedTracks : list Track)
    (currentExcludeIDs : gmap string bool) (allCandidates : list CandidateWithSource)
    : list CandidateWithSource :=
  match providers with
  | [] => allCandidates
  | pm :: ps =>
      match Provider pm count seedTracks currentExcludeIDs with
      | None => chain_collect ps count seedTracks currentExcludeIDs allCandidates
      | Some candidates =>
          if (length candidates =? 0)%nat
          then chain_collect ps count seedTracks currentExcludeIDs allCandidates
          else chain_collect ps count seedTracks
                 (fold_left (fun ex t => <[ID t := true]> ex) candidates currentExcludeIDs)
                 (allCandidates ++ map (fun t => mkCandidate t (PDisplayName pm)) candidates)
      end
  end.

Definition ProviderChain_GetCandidates (providers : list ProviderWithMetadata) (count : Z)
    (seedTracks : list Track) (excludeIDs : gmap string bool) : option (list CandidateWithSource) :=
  let allCandidates := chain_collect providers count seedTracks excludeIDs [] in
  if (length allCandidates =? 0)%nat then None else Some allCandidates.

(* ------------------------------------------------------------------ *)
(** ** The BGM refill of the session manager (session/state/types.go) *)

Definition isRecentArtistLocked (recent artists : list string) : bool :=
  existsb (fun artist => existsb (fun r => String.eqb artist r) recent) artists.

(** [filterByRecentArtists]: the kept candidates and the new recent-artist
    window. *)
Definition filterByRecentArtists (maxRecent : nat) (recent : list string)
    (candidates : list CandidateWithSource) : list CandidateWithSource * list string :=
  if (maxRecent =? 0)%nat then (candidates, recent) else
  let filtered := List.filter (fun c => negb (isRecentArtistLocked recent (Artists (CTrack c)))) candidates in
  if (length filtered =? 0)%nat && negb (length recent =? 0)%nat then (candidates, [])
  else (filtered, recent).

Section FillQueue.
Variable cfg : Config.
Variable filterChain : list Filter.
Variable systemUser : Session.
(** The provider chain's [GetCandidates(5, seeds, excludeSet)] at retry
    [i] ([None] for an error), and the session state read after it. *)
Variable bgmGetCandidates : nat -> gmap string bool -> option (list CandidateWithSource).
Variable stateAfterFetch : nat -> SessionState.

Definition with_recent (recent : list string) (m : SessionManager) : SessionManager :=
  mkSessionManager (listenerReg m) (playback m) recent (maxRecentArtists m).

(** The inner loop over the filtered candidates: [inl m] when it
    returns, [inr excludeSet] when it runs to its end. *)
Fixpoint select_bgm (filtered : list CandidateWithSource) (m : SessionManager)
    (excludeSet : gmap string bool) (now : Z) : SessionManager + gmap string bool :=
  match filtered with
  | [] => inr excludeSet
  | c :: cs =>
      if negb (IsQueueEmpty (playback m)) then inl m else
      if IsInQueue (playback m) (ID (CTrack c))
      then select_bgm cs m (<[ID (CTrack c) := true]> excludeSet) now else
      let req := mkTrackRequest (SessID systemUser) (ID (CTrack c)) in
      let result := Execute filterChain req (CTrack c) systemUser RequesterTypeBGM in
      if negb (Accepted result)
      then select_bgm cs m (<[ID (CTrack c) := true]> excludeSet) now else
      let qt := mkQueuedTrack (CTrack c)
                  (mkRequester (SessID systemUser) (CDisplayName c) RequesterTypeBGM) now in
      inl (mkSessionManager (listenerReg m) (Enqueue cfg (playback m) qt now)
             (addRecentArtistsLocked (maxRecentArtists m) (recentArtists m) (Artists (CTrack c)))
             (maxRecentArtists m))
  end.

Fixpoint fill_retries (retries retry : nat) (m : SessionManager) (excludeSet : gmap string bool)
    (now : Z) : SessionManager :=
  match retries with
  | O => m
  | S retries' =>
      match bgmGetCandidates retry excludeSet with
      | None => m
      | Some candidates =>
          if (length candidates =? 0)%nat then m else
          let st := stateAfterFetch retry in
          if negb (phase_eqb (phase st) PhaseActive) ||
             negb (match accepting st with Accepting => true | NotAccepting => false end)
          then m else
          let (filtered, recent) := filterByRecentArtists (maxRecentArtists m) (recentArtists m) candidates in
          let m := with_recent recent m in
          match select_bgm filtered m excludeSet now with
          | inl m' => m'
          | inr excludeSet' =>
              fill_retries retries' (S retry) m
                (fold_left (fun ex c => <[ID (CTrack c) := true]> ex) candidates excludeSet') now
          end
      end
  end.

(** [fillQueueWithBGM] with a provider configured (maxRetries = 3).  The
    playlist append and the [Play] goroutine it starts are not modelled. *)
Definition fillQueueWithBGM (m : SessionManager) (now : Z) : SessionManager :=
  let excludeSet := fold_left (fun ex id => <[id := true]> ex) (GetAllTrackIDs (playback m)) ∅ in
  fill_retries 3 0 m excludeSet now.
End FillQueue.

(* ================================================================== *)
(** * Properties *)

(** Scenario 2 of §8: deadline 55 min after now. *)
Example acceptance_scenario_rejected :
  acceptance_done_check (mkAcceptanceDoneFilter true (Some 3600) 300 3000 600 0)
  = Reject "time_limit_exceeded".
Proof. reflexivity. Qed.

Example acceptance_scenario_accepted :
  acceptance_done_check (mkAcceptanceDoneFilter true (Some 3600) 300 2400 600 0) = Accept.
Proof. reflexivity. Qed.

(** C1: the AcceptanceGate check rejects with acceptance_done when the
    session is not accepting, and otherwise, with an end time set, rejects
    with time_limit_exceeded exactly when now > scheduled_end - ending_duration
    or now + current_remaining + queued_duration >= that deadline; it accepts
    in all other cases. *)
Theorem acceptance_done_check_matches_gate :
  forall f : AcceptanceDoneFilter, acceptance_done_check f = acceptance_gate_spec f.
Proof.
  intros [acc endT ed qd cr now].
  unfold acceptance_done_check, acceptance_gate_spec; simpl.
  destruct acc; simpl; [|reflexivity].
  destruct endT as [e|]; [|reflexivity].
  rewrite Z.gtb_ltb, Z.geb_leb.
  destruct (Z.ltb_spec (e - ed) now); simpl; [reflexivity|].
  destruct (Z.ltb_spec (e - ed) (now + cr + qd));
  destruct (Z.eqb_spec (now + cr + qd) (e - ed));
  destruct (Z.leb_spec (e - ed) (now + cr + qd)); simpl; try reflexivity; lia.
Qed.

(** The numbers a run of allocations hands out, from any counter value. *)
Lemma run_allocations_numbers :
  forall (whos : list SeqAllocator) (m : NotificationManager),
    fst (run_allocations whos m)
    = map (fun i => wrap_uint64 (sequenceNo m + Z.of_nat i)) (seq 1 (length whos)).
Proof.
  induction whos as [|w ws IH]; intros m; [reflexivity|].
  simpl. destruct (allocate w m) as [n m'] eqn:Ha.
  destruct (run_allocations ws m') as [ns m''] eqn:Hr. simpl.
  assert (Hn : n = wrap_uint64 (sequenceNo m + 1) /\ sequenceNo m' = n).
  { destruct w; simpl in Ha; inversion Ha; subst; split; reflexivity. }
  destruct Hn as [Hn Hs].
  specialize (IH m'). rewrite Hr in IH. simpl in IH. rewrite IH.
  f_equal.
  - rewrite Hn. reflexivity.
  - rewrite <- (seq_shift (length ws) 1), map_map. apply map_ext. intros i. rewrite Hs, Hn. unfold wrap_uint64.
    rewrite Zplus_mod_idemp_l. f_equal. lia.
Qed.

Lemma StronglySorted_map_seq_lt :
  forall (n start : nat),
    StronglySorted Z.lt (map Z.of_nat (seq start n)).
Proof.
  induction n as [|n IH]; intros start; simpl; constructor.
  - apply IH.
  - apply List.Forall_forall. intros x Hx.
    apply in_map_iff in Hx as [i [<- Hi]]. apply in_seq in Hi. lia.
Qed.

Lemma nth_map_seq_Z (f : nat -> Z) (k start n : nat) :
  (k < n)%nat -> nth k (map f (seq start n)) 0 = f (start + k)%nat.
Proof.
  intros H. rewrite (nth_indep _ 0 (f 0%nat)) by (rewrite length_map, length_seq; lia).
  rewrite map_nth, seq_nth by lia. reflexivity.
Qed.

(** C3 (amended): from a fresh manager, as long as fewer than 2^64 numbers
    have been drawn, the k-th number drawn (by Broadcast, NextSequenceNo
    or the subscribe-time allocation alike) is k; so they are strictly
    increasing in allocation order and pairwise distinct. *)
Theorem sequence_numbers_increasing_below_wrap :
  forall whos : list SeqAllocator,
    Z.of_nat (length whos) < 2 ^ 64 ->
    let ns := fst (run_allocations whos NewNotificationManager) in
    ns = map Z.of_nat (seq 1 (length whos)) /\ StronglySorted Z.lt ns /\ NoDup ns.
Proof.
  intros whos Hlen ns.
  assert (Heq : ns = map Z.of_nat (seq 1 (length whos))).
  { unfold ns. rewrite run_allocations_numbers. simpl.
    apply map_ext_in. intros i Hi. apply in_seq in Hi.
    unfold wrap_uint64. apply Z.mod_small. lia. }
  split; [exact Heq|]. rewrite Heq. split.
  - apply StronglySorted_map_seq_lt.
  - apply NoDup_ListNoDup, List.NoDup_map_NoDup_ForallPairs.
    + intros x y _ _ H. lia.
    + apply List.seq_NoDup.
Qed.

Lemma sequence_numbers_increasing_below_wrap_witness :
  Z.of_nat (length [ByBroadcast; BySubscribe; ByNextSequenceNo]) < 2 ^ 64 /\
  fst (run_allocations [ByBroadcast; BySubscribe; ByNextSequenceNo] NewNotificationManager)
  = [1; 2; 3].
Proof.
  split; [simpl; lia|].
  destruct (sequence_numbers_increasing_below_wrap [ByBroadcast; BySubscribe; ByNextSequenceNo])
    as [H _]; [simpl; lia|].
  rewrite H. reflexivity.
Defined.

(** C3 (counterexample): the uint64 counter wraps.  After 2^64 + 1
    allocations from a fresh manager, the first and the last allocation
    both received sequence number 1. *)
Lemma sequence_numbers_wrap_counterexample :
  let ns := fst (run_allocations (repeat ByBroadcast (Z.to_nat (2 ^ 64 + 1))) NewNotificationManager) in
  nth 0 ns 0 = 1 /\ nth (Z.to_nat (2 ^ 64)) ns 0 = 1.
Proof.
  intros ns. unfold ns. rewrite run_allocations_numbers, repeat_length. simpl sequenceNo.
  split.
  - rewrite nth_map_seq_Z by lia. reflexivity.
  - rewrite nth_map_seq_Z by lia.
    unfold wrap_uint64. rewrite Nat2Z.inj_add, Z2Nat.id by lia.
    replace (0 + (Z.of_nat 1 + 2 ^ 64)) with (1 + 1 * 2 ^ 64) by lia.
    rewrite Z_mod_plus_full. reflexivity.
Qed.

(** C2: with the buffering adapter, a broadcast that draws its number
    before a subscriber's [Subscribe] and copies the subscription map after
    it is buffered and flushed after INITIAL_STATE: the subscriber's stream
    is INITIAL_STATE with sequence number 2 followed by CHANGE_TRACK with
    sequence number 1, a later notification with a smaller sequence number
    than the INITIAL_STATE's. *)
Theorem subscribe_broadcast_interleaving_reorders :
  option_map (fun w => stream_of w 1%nat)
    (run InitialWorld [BroadcastDraw 0 NOTIFICATION_TYPE_CHANGE_TRACK; SubSubscribe 1;
                       BroadcastSend 0; SubSendInitial 1; SubFlush 1])
  = Some [mkNotification 2 NOTIFICATION_TYPE_INITIAL_STATE;
          mkNotification 1 NOTIFICATION_TYPE_CHANGE_TRACK].
Proof. vm_compute. reflexivity. Qed.

(** Every lifecycle operation other than [Start] never lowers the phase,
    changes nothing once terminated, and keeps accepting => active. *)
Lemma non_start_ops_monotone :
  forall o s, o <> OpStart ->
    (accepting s = Accepting -> phase s = PhaseActive) ->
    phase_rank (phase s) <= phase_rank (phase (apply_op o s)) /\
    (phase s = PhaseTerminated -> apply_op o s = s) /\
    (accepting (apply_op o s) = Accepting -> phase (apply_op o s) = PhaseActive).
Proof.
  intros o [p a] Ho Hinv.
  destruct o; [congruence| | | |]; destruct p, a; simpl in *;
    repeat split; try lia; intros; try congruence;
    specialize (Hinv eq_refl); discriminate.
Qed.

Lemma non_start_ops_monotone_witness :
  OpStop <> OpStart /\
  phase_rank (phase NewSessionState) <= phase_rank (phase (apply_op OpStop NewSessionState)).
Proof.
  split; [discriminate|].
  destruct (non_start_ops_monotone OpStop NewSessionState) as [H _];
    [discriminate | intro Ha; discriminate Ha | exact H].
Defined.

(** C4: [Start] tests no phase: a [Stop] before [Start] (possible while
    [Start] runs its setup with the lock released) terminates the waiting
    session, and [Start] then moves it from terminated back to active and
    accepting. *)
Theorem start_after_stop_regresses :
  trace NewSessionState [OpStop; OpStart]
  = [mkSessionState PhaseWaiting NotAccepting;
     mkSessionState PhaseTerminated NotAccepting;
     mkSessionState PhaseActive Accepting].
Proof. reflexivity. Qed.

(** The duplicate check is a search of the list for an entry with the same
    id or a remaster of the requested track. *)
Lemma duplicate_track_check_existsb :
  forall qs t,
    duplicate_track_check qs t
    = if existsb (fun q => String.eqb (ID (QTrack q)) (ID t) || isRemaster (QTrack q) t) qs
      then Reject "duplicate_track" else Accept.
Proof.
  induction qs as [|q qs IH]; intros t; [reflexivity|].
  simpl. destruct (String.eqb (ID (QTrack q)) (ID t)); [reflexivity|].
  destruct (isRemaster (QTrack q) t); [reflexivity|]. apply IH.
Qed.

Definition hotel_california : Track :=
  mkTrack "t-studio" "Hotel California" ["Eagles"] 391000000000.
Definition hotel_california_live : Track :=
  mkTrack "t-live" "Hotel California (Live)" ["Eagles"] 431000000000.
Definition eagles_fan : Requester := mkRequester "l1" "fan" RequesterTypeUser.

(** C5: the pattern \s*-?\s*live runs before \s*\(live\), so
    "Hotel California (Live)" normalises to "hotel california ()" rather
    than "hotel california"; with the studio version by the same artist in
    the queue, the live version is accepted. *)
Theorem live_suffix_not_stripped :
  normalizeTrackName "Hotel California (Live)" = "hotel california ()" /\
  duplicate_track_check
    (GetAllTracks (Enqueue (mkConfig 0 0 0) NewController (mkQueuedTrack hotel_california eagles_fan 0) 0))
    hotel_california_live
  = Accept.
Proof. vm_compute. split; reflexivity. Qed.

(** The default configuration's 100 ms gap correction: the track starts
    100 ms after [playNextLocked] reads the clock, so the depletion check
    that follows within the same locked call (which reads the clock again,
    well inside those 100 ms) sees the full track duration. *)
Definition depletion_cfg : Config := mkConfig 30 0 100000000.
Definition thirty_second_track : QueuedTrack :=
  mkQueuedTrack (mkTrack "t1" "Song" ["Artist"] 30000000000) eagles_fan 0.
Definition depletion_after_play : Controller :=
  fst (Play depletion_cfg (Enqueue depletion_cfg NewController thirty_second_track 0) 0).

(** C6: with a 30 s threshold, the default 100 ms gap correction and a
    single 30 s track enqueued and played at time 0, the track starts at
    0.1 s, so total_remaining equals the threshold at both checks (enqueue
    and play) and no depletion timer is armed; at 10.1 s total_remaining
    is 20 s (inside (0, threshold)) with no QueueDepleting emitted, and when
    the only armed timer (track end, at 30.1 s) fires the log is
    TrackStarted, TrackEnded, QueueEmpty: the dip below the threshold
    produces no QueueDepleting at all. *)
Theorem depletion_missed_at_threshold :
  startTime depletion_after_play = 100000000 /\
  depletionNotified depletion_after_play = false /\
  depletionTimerCancel depletion_after_play = None /\
  notificationDelayTimerCancel depletion_after_play = None /\
  timerCancel depletion_after_play = Some 30100000000 /\
  threshold depletion_cfg = 30000000000 /\
  total_remaining depletion_after_play 0 = 30000000000 /\
  total_remaining depletion_after_play 10100000000 = 20000000000 /\
  map EvType (events depletion_after_play) = [EventTrackStarted] /\
  option_map (fun c => map EvType (events c))
    (fire_track_timer depletion_cfg depletion_after_play 30100000001)
  = Some [EventTrackStarted; EventTrackEnded; EventQueueEmpty].
Proof. vm_compute. repeat split. Qed.

(** The fields a controller operation leaves alone when it touches only
    the queue and the depletion bookkeeping. *)
Definition playback_frame (c c' : Controller) : Prop :=
  played c' = played c /\ currentTrack c' = currentTrack c /\ state c' = state c /\
  startTime c' = startTime c /\ scheduledStartTime c' = scheduledStartTime c /\
  notificationTime c' = notificationTime c /\ pausedAt c' = pausedAt c /\
  pausedElapsed c' = pausedElapsed c /\ timerCancel c' = timerCancel c /\
  notificationDelayTimerCancel c' = notificationDelayTimerCancel c.

Lemma playback_frame_refl : forall c, playback_frame c c.
Proof. intros c. repeat split. Qed.

Lemma playback_frame_trans :
  forall c1 c2 c3, playback_frame c1 c2 -> playback_frame c2 c3 -> playback_frame c1 c3.
Proof.
  unfold playback_frame. intros c1 c2 c3 H12 H23. intuition congruence.
Qed.

Lemma checkDepletionLocked_frame :
  forall cfg c now,
    playback_frame c (checkDepletionLocked cfg c now) /\
    queue (checkDepletionLocked cfg c now) = queue c.
Proof.
  intros cfg c now. unfold checkDepletionLocked.
  destruct (depletionNotified c); [split; [apply playback_frame_refl | reflexivity]|].
  destruct (_ && _); [split; [repeat split | reflexivity]|].
  destruct (_ && _); split; try reflexivity; repeat split.
Qed.

Lemma Enqueue_frame :
  forall cfg c qt now,
    playback_frame c (Enqueue cfg c qt now) /\ queue (Enqueue cfg c qt now) = queue c ++ [qt].
Proof.
  intros cfg c qt now. unfold Enqueue.
  destruct (checkDepletionLocked_frame cfg (set_notified false (set_queue (queue c ++ [qt]) c)) now)
    as [Hf Hq].
  split; [|exact Hq].
  eapply playback_frame_trans; [|exact Hf]. repeat split.
Qed.

Lemma enqueuePlaylistTracks_frame :
  forall cfg tracks c systemID requesterName requesterType now,
    let c' := enqueuePlaylistTracks cfg c tracks systemID requesterName requesterType now in
    playback_frame c c' /\
    queue c' = queue c ++ map (fun t => mkQueuedTrack t (mkRequester systemID requesterName requesterType) now) tracks.
Proof.
  intros cfg tracks. induction tracks as [|t ts IH]; intros c sid rn rt now c'; unfold c'.
  - simpl. rewrite app_nil_r. split; [apply playback_frame_refl | reflexivity].
  - unfold enqueuePlaylistTracks. simpl.
    destruct (Enqueue_frame cfg c (mkQueuedTrack t (mkRequester sid rn rt) now) now) as [Hf Hq].
    destruct (IH (Enqueue cfg c (mkQueuedTrack t (mkRequester sid rn rt) now) now) sid rn rt now)
      as [Hf' Hq'].
    unfold enqueuePlaylistTracks in Hf', Hq'.
    split.
    + eapply playback_frame_trans; [exact Hf | exact Hf'].
    + rewrite Hq', Hq, <- app_assoc. reflexivity.
Qed.

Lemma Execute_first_reject :
  forall pre f post req t l ty,
    Forall (fun g => AppliesTo g ty = false \/ Accepted (check g req t l) = true) pre ->
    AppliesTo f ty = true -> Accepted (check f req t l) = false ->
    Execute (pre ++ f :: post) req t l ty = check f req t l.
Proof.
  intros pre f post req t l ty Hpre Hf Hr.
  induction Hpre as [|g gs Hg _ IH]; simpl.
  - rewrite Hf, Hr. reflexivity.
  - destruct Hg as [Hg|Hg].
    + rewrite Hg. exact IH.
    + destruct (AppliesTo g ty); simpl; [rewrite Hg; simpl|]; exact IH.
Qed.

Lemma Execute_all_accept :
  forall fs req t l ty,
    Forall (fun g => AppliesTo g ty = false \/ Accepted (check g req t l) = true) fs ->
    Execute fs req t l ty = Accept.
Proof.
  intros fs req t l ty H.
  induction H as [|g gs Hg _ IH]; simpl; [reflexivity|].
  destruct Hg as [Hg|Hg].
  - rewrite Hg. exact IH.
  - destruct (AppliesTo g ty); simpl; [rewrite Hg; simpl|]; exact IH.
Qed.

(** C7: the outcomes of [RequestTrack]: the error component is always
    [None]; unknown listener gives (false, invalid_listener); a failed
    catalog fetch gives (false, track_not_found); when the first applicable
    rejecting filter of the USER chain is [f], the result carries [f]'s
    code; when every applicable filter accepts, the result is
    (true, empty code), the track is appended to the playback queue and the
    listener's pending count is incremented; and whenever the result is not
    accepted, the manager is left unchanged. *)
Theorem RequestTrack_outcomes :
  forall (GetTrack : string -> option Track) (filters : list Filter) (cfg : Config)
         (m : SessionManager) (listenerID trackID : string) (now : Z),
    let out := RequestTrack GetTrack filters cfg m listenerID trackID now in
    let req := mkTrackRequest listenerID trackID in
    snd (fst out) = None /\
    (listenerReg m !! listenerID = None ->
       out = ((false, "invalid_listener", None), m)) /\
    (forall s, listenerReg m !! listenerID = Some s -> GetTrack trackID = None ->
       out = ((false, "track_not_found", None), m)) /\
    (forall s t pre f post,
       listenerReg m !! listenerID = Some s -> GetTrack trackID = Some t ->
       filters = pre ++ f :: post ->
       Forall (fun g => AppliesTo g RequesterTypeUser = false \/ Accepted (check g req t s) = true) pre ->
       AppliesTo f RequesterTypeUser = true -> Accepted (check f req t s) = false ->
       out = ((false, Code (check f req t s), None), m)) /\
    (forall s t,
       listenerReg m !! listenerID = Some s -> GetTrack trackID = Some t ->
       Forall (fun g => AppliesTo g RequesterTypeUser = false \/ Accepted (check g req t s) = true) filters ->
       fst out = (true, EmptyString, None) /\
       queue (playback (snd out))
         = queue (playback m) ++ [mkQueuedTrack t (mkRequester (SessID s) (DisplayName s) RequesterTypeUser) now] /\
       listenerReg (snd out) !! listenerID = Some (IncrementPendingTracks s now)) /\
    (fst (fst (fst out)) = false -> snd out = m).
Proof.
  intros GetTrack filters cfg m lid tid now out req.
  unfold out, RequestTrack, registry_get.
  destruct (listenerReg m !! lid) as [s|] eqn:Hl.
  2: { repeat split; intros; congruence. }
  destruct (GetTrack tid) as [t|] eqn:Ht.
  2: { repeat split; intros; congruence. }
  destruct (Accepted (Execute filters (mkTrackRequest lid tid) t s RequesterTypeUser)) eqn:He;
    simpl.
  - unfold registry_increment_pending. rewrite Hl. simpl.
    split; [reflexivity|]. split; [|split; [|split; [|split]]].
    + intros; congruence.
    + intros; congruence.
    + intros s' t' pre f post Hs Ht' Hfs Hpre Hf Hr.
      injection Hs as <-. injection Ht' as <-.
      subst filters. unfold req in *. rewrite Execute_first_reject in He by assumption.
      congruence.
    + intros s' t' Hs Ht' _. injection Hs as <-. injection Ht' as <-.
      split; [reflexivity|split; [apply Enqueue_frame | apply lookup_insert_eq]].
    + discriminate.
  - split; [reflexivity|]. split; [|split; [|split; [|split]]].
    + intros; congruence.
    + intros; congruence.
    + intros s' t' pre f post Hs Ht' Hfs Hpre Hf Hr.
      injection Hs as <-. injection Ht' as <-.
      subst filters. unfold req in *. rewrite Execute_first_reject by assumption. reflexivity.
    + intros s' t' Hs Ht' Hall. injection Hs as <-.
      injection Ht' as <-. unfold req in *.
      rewrite Execute_all_accept in He by assumption. discriminate.
    + reflexivity.
Qed.

Lemma wrap_int64_small : forall z, int64_min <= z <= int64_max -> wrap_int64 z = z.
Proof.
  intros z Hz. unfold wrap_int64, int64_min, int64_max in *.
  rewrite Z.mod_small by lia. lia.
Qed.

Lemma wrap_int64_add_idemp : forall x y, wrap_int64 (wrap_int64 x + y) = wrap_int64 (x + y).
Proof.
  intros x y. unfold wrap_int64.
  replace ((x + 2 ^ 63) mod 2 ^ 64 - 2 ^ 63 + y + 2 ^ 63)
    with ((x + 2 ^ 63) mod 2 ^ 64 + y) by lia.
  rewrite Zplus_mod_idemp_l. f_equal. f_equal. lia.
Qed.

(** Any sequence of calls on a session: [Some now] is
    [IncrementPendingTracks] at [now], [None] is [DecrementPendingTracks]. *)
Definition run_pending (ops : list (option Z)) (s : Session) : Session :=
  fold_left (fun s o => match o with
                        | Some now => IncrementPendingTracks s now
                        | None => DecrementPendingTracks s
                        end) ops s.

Lemma DecrementPendingTracks_nonneg :
  forall s, 0 <= PendingTracks s <= int64_max ->
    0 <= PendingTracks (DecrementPendingTracks s) <= PendingTracks s.
Proof.
  intros s Hs. unfold DecrementPendingTracks.
  destruct (Z.ltb_spec 0 (PendingTracks s)); simpl; [|lia].
  rewrite wrap_int64_small by (unfold int64_min, int64_max in *; lia). lia.
Qed.

Lemma IncrementPendingTracks_small :
  forall s now, int64_min <= PendingTracks s < int64_max ->
    PendingTracks (IncrementPendingTracks s now) = PendingTracks s + 1.
Proof.
  intros s now Hs. simpl. apply wrap_int64_small. unfold int64_min, int64_max in *. lia.
Qed.

Lemma run_pending_nonneg :
  forall ops s, 0 <= PendingTracks s -> PendingTracks s + Z.of_nat (length ops) < int64_max ->
    0 <= PendingTracks (run_pending ops s).
Proof.
  induction ops as [|o os IH]; intros s Hs Hlen; [exact Hs|].
  simpl in Hlen. unfold run_pending. simpl. apply IH.
  - destruct o as [now|].
    + rewrite IncrementPendingTracks_small by (unfold int64_min, int64_max in *; lia). lia.
    + apply DecrementPendingTracks_nonneg. lia.
  - destruct o as [now|].
    + rewrite IncrementPendingTracks_small by (unfold int64_min, int64_max in *; lia). lia.
    + destruct (DecrementPendingTracks_nonneg s) as [_ H]; [lia|]. lia.
Qed.

(** C8 (amended): below [int64_max], [IncrementPendingTracks] adds one and
    [DecrementPendingTracks] undoes it; [DecrementPendingTracks] never takes
    a count in [0, int64_max] below 0 and leaves the session unchanged at 0; and
    from a non-negative count, any sequence of calls whose length keeps the
    count below [int64_max] never makes it negative. *)
Theorem pending_tracks_saturating :
  (forall s now, 0 <= PendingTracks s < int64_max ->
     PendingTracks (IncrementPendingTracks s now) = PendingTracks s + 1 /\
     PendingTracks (DecrementPendingTracks (IncrementPendingTracks s now)) = PendingTracks s) /\
  (forall s, 0 <= PendingTracks s <= int64_max ->
     0 <= PendingTracks (DecrementPendingTracks s) /\
     (PendingTracks s = 0 -> DecrementPendingTracks s = s)) /\
  (forall ops s, 0 <= PendingTracks s -> PendingTracks s + Z.of_nat (length ops) < int64_max ->
     0 <= PendingTracks (run_pending ops s)).
Proof.
  split; [|split].
  - intros s now Hs.
    assert (Hi : PendingTracks (IncrementPendingTracks s now) = PendingTracks s + 1)
      by (apply IncrementPendingTracks_small; unfold int64_min, int64_max in *; lia).
    split; [exact Hi|].
    unfold DecrementPendingTracks. rewrite Hi.
    destruct (Z.ltb_spec 0 (PendingTracks s + 1)); [|lia]. simpl.
    replace (PendingTracks s + 1 - 1) with (PendingTracks s) by lia. apply wrap_int64_small. unfold int64_min, int64_max in *. lia.
  - intros s Hs. split; [apply DecrementPendingTracks_nonneg; exact Hs|].
    intros H0. unfold DecrementPendingTracks. rewrite H0. reflexivity.
  - exact run_pending_nonneg.
Qed.

Lemma pending_tracks_saturating_witness :
  PendingTracks (DecrementPendingTracks (IncrementPendingTracks (NewSession "l1" "fan" EmptyString false) 0))
  = 0.
Proof.
  destruct pending_tracks_saturating as [Hinc _].
  destruct (Hinc (NewSession "l1" "fan" EmptyString false) 0) as [_ H];
    [unfold int64_max; simpl; lia|].
  exact H.
Defined.

Lemma increments_from_new_session :
  forall k s0 now, PendingTracks s0 = 0 ->
    PendingTracks (Nat.iter k (fun s => IncrementPendingTracks s now) s0) = wrap_int64 (Z.of_nat k).
Proof.
  induction k as [|k IH]; intros s0 now H0.
  - simpl. rewrite H0. reflexivity.
  - rewrite Nat.iter_succ. simpl PendingTracks at 1. rewrite IH by exact H0.
    rewrite wrap_int64_add_idemp. f_equal. lia.
Qed.

(** C8 (counterexample): after [int64_max] increments of a new session the
    count is [int64_max]; one more increment wraps it to [int64_min], a
    negative count, and the following decrement is a no-op, so the
    increment/decrement round trip does not restore the count. *)
Lemma pending_tracks_wrap_counterexample :
  let s := Nat.iter (Z.to_nat int64_max) (fun s => IncrementPendingTracks s 0)
             (NewSession "l1" "fan" EmptyString false) in
  PendingTracks s = int64_max /\
  PendingTracks (IncrementPendingTracks s 0) = int64_min /\
  PendingTracks (DecrementPendingTracks (IncrementPendingTracks s 0)) = int64_min.
Proof.
  assert (Hmax : forall s, PendingTracks s = int64_max ->
            PendingTracks (IncrementPendingTracks s 0) = int64_min /\
            PendingTracks (DecrementPendingTracks (IncrementPendingTracks s 0)) = int64_min).
  { intros s Hs.
    assert (Hi : PendingTracks (IncrementPendingTracks s 0) = int64_min).
    { simpl. rewrite Hs. reflexivity. }
    split; [exact Hi|]. unfold DecrementPendingTracks. rewrite Hi.
    replace (0 <? int64_min) with false by reflexivity. exact Hi. }
  intros s.
  assert (Hs : PendingTracks s = int64_max).
  { unfold s. rewrite increments_from_new_session by reflexivity.
    rewrite Z2Nat.id by (unfold int64_max; lia). reflexivity. }
  split; [exact Hs|]. apply Hmax. exact Hs.
Qed.

(** With no current track, [playNextLocked] does not touch the played
    history, and the combined list of [GetAllTracks] is played ++ queue. *)
Lemma playNextLocked_from_idle :
  forall cfg c now, currentTrack c = None ->
    played (fst (playNextLocked cfg c now)) = played c /\
    GetAllTracks (fst (playNextLocked cfg c now)) = played c ++ queue c.
Proof.
  intros cfg c now Hc. unfold playNextLocked.
  destruct (queue c) as [|q rest] eqn:Hq.
  - simpl. unfold GetAllTracks. simpl. rewrite Hc, Hq. split; reflexivity.
  - cbn [set_queue currentTrack]. rewrite Hc.
    match goal with
    | |- context [checkDepletionLocked ?cf ?c0 ?n] =>
        destruct (checkDepletionLocked_frame cf c0 n) as [[Hp [Hcur _]] Hq']
    end.
    destruct (0 <? NotificationDelay cfg); simpl; unfold GetAllTracks; simpl;
      rewrite Hp, Hcur, Hq'; simpl; split; reflexivity.
Qed.

Definition opening_entry : QueuedTrack :=
  mkQueuedTrack hotel_california (mkRequester "system" "opening" RequesterTypeOpening) 0.
Definition skip_cfg : Config := mkConfig 0 0 0.
(** An opening playlist that lists the same track twice, playing. *)
Definition opening_controller : Controller :=
  fst (Play skip_cfg
         (enqueuePlaylistTracks skip_cfg NewController [hotel_california; hotel_california]
            "system" "opening" RequesterTypeOpening 0) 0).

(** C9 (amended): [Skip] of the current track [sk] leaves the played
    history unchanged (a natural track end appends [sk] to it); after
    [Skip] the list [GetAllTracks] is the played history followed by the
    old queue, so a new request for [sk]'s track passes the duplicate check
    exactly when no entry of that list has the same id or is a remaster
    of it. *)
Theorem Skip_keeps_played :
  forall cfg c now sk, currentTrack c = Some sk ->
    played (fst (Skip cfg c now)) = played c /\
    GetAllTracks (fst (Skip cfg c now)) = played c ++ queue c /\
    duplicate_track_check (GetAllTracks (fst (Skip cfg c now))) (QTrack sk)
    = (if existsb (fun q => String.eqb (ID (QTrack q)) (ID (QTrack sk))
                           || isRemaster (QTrack q) (QTrack sk)) (played c ++ queue c)
       then Reject "duplicate_track" else Accept) /\
    played (onTrackEndLocked cfg c now) = played c ++ [sk].
Proof.
  intros cfg c now sk Hc.
  assert (Hs : played (fst (Skip cfg c now)) = played c /\
               GetAllTracks (fst (Skip cfg c now)) = played c ++ queue c).
  { unfold Skip. rewrite Hc.
    match goal with
    | |- context [playNextLocked ?cf ?c0 ?n] =>
        destruct (playNextLocked_from_idle cf c0 n eq_refl) as [Hp Hg]
    end.
    rewrite Hp, Hg. split; reflexivity. }
  destruct Hs as [Hp Hg].
  split; [exact Hp|]. split; [exact Hg|]. split.
  - rewrite Hg. apply duplicate_track_check_existsb.
  - unfold onTrackEndLocked. rewrite Hc.
    match goal with
    | |- context [playNextLocked ?cf ?c0 ?n] =>
        destruct (playNextLocked_from_idle cf c0 n eq_refl) as [Hp' _]
    end.
    rewrite Hp'. reflexivity.
Qed.

Lemma Skip_keeps_played_witness :
  currentTrack opening_controller = Some opening_entry /\
  played (fst (Skip skip_cfg opening_controller 5)) = [].
Proof.
  assert (Hc : currentTrack opening_controller = Some opening_entry) by (vm_compute; reflexivity).
  split; [exact Hc|].
  destruct (Skip_keeps_played skip_cfg opening_controller 5 opening_entry Hc) as [Hp _].
  rewrite Hp. vm_compute. reflexivity.
Defined.

(** C9 (counterexample): skipping the first of two opening-playlist
    entries of the same track leaves the second in the queue, so after the
    skip the track still appears in [GetAllTracks] and a request for it is
    rejected as a duplicate. *)
Lemma skip_duplicate_counterexample :
  currentTrack opening_controller = Some opening_entry /\
  In opening_entry (GetAllTracks (fst (Skip skip_cfg opening_controller 5))) /\
  duplicate_track_check (GetAllTracks (fst (Skip skip_cfg opening_controller 5))) hotel_california
  = Reject "duplicate_track".
Proof.
  vm_compute. split; [reflexivity|]. split; [left; reflexivity | reflexivity].
Qed.

(** C10: [ClearQueue] returns the queue as it was and empties it, leaving
    every other field of the controller (current track, state, played
    history, virtual-clock fields, timers, depletion flag, event log)
    unchanged; the ending transition's swap (ClearQueue, then one Enqueue
    per ending track) returns the old queue, leaves the current track,
    state, played history, virtual-clock fields, track-end and notification
    timers unchanged, and leaves exactly the ending playlist queued. *)
Theorem ClearQueue_frame :
  forall c,
    fst (ClearQueue c) = queue c /\ queue (snd (ClearQueue c)) = [] /\
    played (snd (ClearQueue c)) = played c /\
    currentTrack (snd (ClearQueue c)) = currentTrack c /\
    state (snd (ClearQueue c)) = state c /\
    startTime (snd (ClearQueue c)) = startTime c /\
    scheduledStartTime (snd (ClearQueue c)) = scheduledStartTime c /\
    notificationTime (snd (ClearQueue c)) = notificationTime c /\
    pausedAt (snd (ClearQueue c)) = pausedAt c /\
    pausedElapsed (snd (ClearQueue c)) = pausedElapsed c /\
    timerCancel (snd (ClearQueue c)) = timerCancel c /\
    depletionTimerCancel (snd (ClearQueue c)) = depletionTimerCancel c /\
    notificationDelayTimerCancel (snd (ClearQueue c)) = notificationDelayTimerCancel c /\
    depletionNotified (snd (ClearQueue c)) = depletionNotified c /\
    events (snd (ClearQueue c)) = events c /\
    (forall cfg tracks systemID endingName now,
       fst (ending_swap cfg c tracks systemID endingName now) = queue c /\
       playback_frame c (snd (ending_swap cfg c tracks systemID endingName now)) /\
       queue (snd (ending_swap cfg c tracks systemID endingName now))
       = map (fun t => mkQueuedTrack t (mkRequester systemID endingName RequesterTypeEnding) now) tracks).
Proof.
  intros c.
  do 15 (split; [reflexivity|]).
  intros cfg tracks sid name now. unfold ending_swap, ClearQueue. simpl.
  destruct (enqueuePlaylistTracks_frame cfg tracks (set_queue [] c) sid name RequesterTypeEnding now)
    as [Hf Hq].
  split; [reflexivity|]. split.
  - eapply playback_frame_trans; [|exact Hf]. repeat split.
  - rewrite Hq. reflexivity.
Qed.

Lemma take_cons_take {A} (n : nat) (x : A) (l : list A) :
  take n (x :: take n l) = take n (x :: l).
Proof. destruct n as [|k]; [reflexivity|]. simpl. f_equal. rewrite take_take. f_equal. lia. Qed.

Lemma fold_left_ext_fun {A B} (f g : A -> B -> A) (l : list B) (x : A) :
  (forall acc b, f acc b = g acc b) -> fold_left f l x = fold_left g l x.
Proof. intros H. revert x. induction l as [|b l IH]; intros x; simpl; [reflexivity|]. rewrite H. apply IH. Qed.

Lemma addRecentArtistsLocked_fold (maxRecent : nat) (recent artists : list string) :
  addRecentArtistsLocked maxRecent recent artists =
  fold_left (fun acc a => take maxRecent (a :: acc)) artists recent.
Proof.
  unfold addRecentArtistsLocked. apply fold_left_ext_fun. intros acc a. simpl.
  destruct (Nat.ltb_spec maxRecent (S (length acc))); [reflexivity|].
  rewrite take_ge; [reflexivity|simpl; lia].
Qed.

Lemma fold_take_cons (maxRecent : nat) (rest acc : list string) :
  fold_left (fun acc a => take maxRecent (a :: acc)) rest (take maxRecent acc) =
  take maxRecent (rev rest ++ acc).
Proof.
  revert acc. induction rest as [|b rest IH]; intros acc; simpl; [reflexivity|].
  rewrite take_cons_take, IH, <- app_assoc. reflexivity.
Qed.

(** X3: the recent-artist window after [addRecentArtistsLocked] with a
    non-empty artist list: the new artists, last one first, in front of
    the old window, cut to the window size. *)
Theorem addRecentArtistsLocked_window :
  forall (maxRecent : nat) (recent artists : list string),
    artists <> [] ->
    addRecentArtistsLocked maxRecent recent artists = take maxRecent (rev artists ++ recent).
Proof.
  intros maxRecent recent artists Hne. rewrite addRecentArtistsLocked_fold.
  destruct artists as [|a rest]; [congruence|]. clear Hne. simpl.
  rewrite fold_take_cons, <- app_assoc. reflexivity.
Qed.

Lemma addRecentArtistsLocked_window_witness :
  ["b"; "a"]%string <> [] /\
  addRecentArtistsLocked 2 ["z"%string] ["a"; "b"]%string = take 2 (rev ["a"; "b"]%string ++ ["z"%string]).
Proof. split; [discriminate|]. apply addRecentArtistsLocked_window. discriminate. Defined.

Lemma isRecentArtistLocked_nil (artists : list string) : isRecentArtistLocked [] artists = false.
Proof. unfold isRecentArtistLocked. induction artists; simpl; auto. Qed.

Lemma filter_recent_nil (cs : list CandidateWithSource) :
  List.filter (fun c => negb (isRecentArtistLocked [] (Artists (CTrack c)))) cs = cs.
Proof.
  induction cs as [|c cs IH]; simpl; [reflexivity|].
  rewrite isRecentArtistLocked_nil. simpl. f_equal. exact IH.
Qed.

(** X4: [filterByRecentArtists] keeps only candidates (in their order);
    it never empties a non-empty candidate list; and either it keeps the
    window and every kept candidate avoids the recent artists (or the
    window is disabled), or it resets the window and keeps all candidates. *)
Theorem filterByRecentArtists_spec :
  forall (maxRecent : nat) (recent : list string) (candidates : list CandidateWithSource),
    let filtered := fst (filterByRecentArtists maxRecent recent candidates) in
    let recent' := snd (filterByRecentArtists maxRecent recent candidates) in
    (candidates <> [] -> filtered <> []) /\
    sublist filtered candidates /\
    ((recent' = recent /\
      (maxRecent = 0%nat \/
       Forall (fun c => isRecentArtistLocked recent (Artists (CTrack c)) = false) filtered)) \/
     (recent' = [] /\ filtered = candidates)).
Proof.
  intros maxRecent recent candidates filtered recent'. subst filtered recent'.
  unfold filterByRecentArtists.
  destruct (Nat.eqb_spec maxRecent 0) as [H0|H0].
  { simpl. split; [auto|]. split; [reflexivity|]. left. auto. }
  set (fl := List.filter _ candidates).
  assert (Hsub : sublist fl candidates).
  { subst fl. induction candidates as [|c cs IH]; simpl; [constructor|].
    destruct (negb _); [apply sublist_skip|apply sublist_cons]; exact IH. }
  assert (Hok : Forall (fun c => isRecentArtistLocked recent (Artists (CTrack c)) = false) fl).
  { subst fl. apply List.Forall_forall. intros c Hc. apply filter_In in Hc as [_ Hc].
    apply negb_true_iff in Hc. exact Hc. }
  destruct (Nat.eqb_spec (length fl) 0) as [Hl|Hl];
    destruct (Nat.eqb_spec (length recent) 0) as [Hr|Hr]; simpl.
  - apply length_zero_iff_nil in Hr. subst recent.
    assert (Hfl : fl = candidates) by (subst fl; apply filter_recent_nil).
    rewrite Hfl. split; [auto|]. split; [reflexivity|]. left. split; [reflexivity|].
    right. rewrite <- Hfl. exact Hok.
  - split; [auto|]. split; [reflexivity|]. right. auto.
  - split; [intros _ Hn; rewrite Hn in Hl; simpl in Hl; lia|]. split; [exact Hsub|].
    left. auto.
  - split; [intros _ Hn; rewrite Hn in Hl; simpl in Hl; lia|]. split; [exact Hsub|].
    left. auto.
Qed.

(** X5: [Session.CanRequest] agrees with the kicked and user-pending
    filters run as a USER chain, for a non-negative pending count. *)
Theorem CanRequest_matches_filters :
  forall (s : Session) (req : TrackRequest) (t : Track),
    0 <= PendingTracks s ->
    CanRequest s = Accepted (Execute [KickedFilter; UserPendingFilter] req t s RequesterTypeUser).
Proof.
  intros s req t Hp. unfold CanRequest. simpl.
  destruct (IsKicked s); [reflexivity|]. simpl.
  destruct (VIPStatus s); [reflexivity|]. simpl.
  destruct (Z.ltb_spec 0 (PendingTracks s)); simpl.
  - apply Z.eqb_neq. lia.
  - apply Z.eqb_eq. lia.
Qed.

Definition witness_session : Session := mkSession "l1" "ann" EmptyString 1 false false 1 None.

Lemma CanRequest_matches_filters_witness :
  0 <= PendingTracks witness_session /\
  CanRequest witness_session =
    Accepted (Execute [KickedFilter; UserPendingFilter] (mkTrackRequest "l1" "t1")
                (mkTrack "t1" "song" ["x"] 1) witness_session RequesterTypeUser).
Proof. split; [simpl; lia|]. apply CanRequest_matches_filters. simpl; lia. Defined.

(** X6: the refusals of the controller's commands change nothing: [Pause]
    with no current track or not playing, [resumeLocked] with no current
    track or not paused, [Skip] with no current track, and [Play] while
    already playing. *)
Theorem controller_refusals_unchanged :
  forall (cfg : Config) (c : Controller) (now : Z),
    (currentTrack c = None ->
       Pause c now = (c, Some ErrNoTrack) /\ resumeLocked cfg c now = (c, Some ErrNoTrack) /\
       Skip cfg c now = (c, Some ErrNoTrack)) /\
    (currentTrack c <> None -> state c <> StatePlaying -> Pause c now = (c, Some ErrNotPlaying)) /\
    (currentTrack c <> None -> state c <> StatePaused -> resumeLocked cfg c now = (c, Some ErrNotPaused)) /\
    (state c = StatePlaying -> Play cfg c now = (c, None)).
Proof.
  intros cfg c now. unfold Pause, resumeLocked, Skip, Play.
  split; [intros H; rewrite H; auto|].
  split; [intros H Hs; destruct (currentTrack c); [|congruence];
          destruct (state c); simpl; congruence|].
  split; [intros H Hs; destruct (currentTrack c); [|congruence];
          destruct (state c); simpl; congruence|].
  intros H. rewrite H. reflexivity.
Qed.

Lemma controller_refusals_unchanged_witness :
  (currentTrack NewController = None ->
     Pause NewController 5 = (NewController, Some ErrNoTrack) /\
     resumeLocked (mkConfig 0 0 0) NewController 5 = (NewController, Some ErrNoTrack) /\
     Skip (mkConfig 0 0 0) NewController 5 = (NewController, Some ErrNoTrack)) /\
  (currentTrack NewController <> None -> state NewController <> StatePlaying ->
     Pause NewController 5 = (NewController, Some ErrNotPlaying)) /\
  (currentTrack NewController <> None -> state NewController <> StatePaused ->
     resumeLocked (mkConfig 0 0 0) NewController 5 = (NewController, Some ErrNotPaused)) /\
  (state NewController = StatePlaying -> Play (mkConfig 0 0 0) NewController 5 = (NewController, None)).
Proof. apply controller_refusals_unchanged. Defined.

Lemma checkDepletionLocked_tracks (cfg : Config) (c : Controller) (now : Z) :
  GetAllTracks (checkDepletionLocked cfg c now) = GetAllTracks c.
Proof.
  destruct (checkDepletionLocked_frame cfg c now) as [[Hp [Hc _]] Hq].
  unfold GetAllTracks. rewrite Hp, Hc, Hq. reflexivity.
Qed.

Lemma playNextLocked_tracks (cfg : Config) (c : Controller) (now : Z) :
  GetAllTracks (fst (playNextLocked cfg c now)) = GetAllTracks c.
Proof.
  unfold playNextLocked. destruct (queue c) as [|qt rest] eqn:Hq.
  - unfold GetAllTracks. simpl. rewrite Hq. reflexivity.
  - set (c1 := set_queue rest c).
    set (c2 := match currentTrack c1 with Some cur => set_played (played c1 ++ [cur]) c1 | None => c1 end).
    assert (H2 : GetAllTracks (set_state StatePlaying (set_pause None 0 (set_current (Some qt) c2)))
                 = GetAllTracks c).
    { unfold GetAllTracks, c2, c1. simpl. rewrite Hq.
      destruct (currentTrack c); simpl; [rewrite <- app_assoc|]; reflexivity. }
    destruct (0 <? NotificationDelay cfg); simpl;
      unfold GetAllTracks in *; simpl;
      rewrite <- H2;
      match goal with |- context [checkDepletionLocked ?cf ?c0 ?n] =>
        destruct (checkDepletionLocked_frame cf c0 n) as [[Hp [Hc _]] Hq'] end;
      rewrite Hp, Hc, Hq'; reflexivity.
Qed.

Lemma onTrackEndLocked_tracks (cfg : Config) (c : Controller) (now : Z) :
  GetAllTracks (onTrackEndLocked cfg c now) = GetAllTracks c.
Proof.
  unfold onTrackEndLocked. destruct (currentTrack c) as [ended|] eqn:Hc; [|reflexivity].
  rewrite playNextLocked_tracks. unfold GetAllTracks. simpl. rewrite Hc, <- app_assoc. reflexivity.
Qed.

(** X7: the controller never loses or invents a track except where it
    says so: playing the next track, a natural track end, [Pause],
    [resumeLocked] and [Play] leave [GetAllTracks] unchanged, [Enqueue]
    appends the new track to it, and [Stop] drops the current track. *)
Theorem GetAllTracks_conservation :
  forall (cfg : Config) (c : Controller) (now : Z),
    GetAllTracks (fst (playNextLocked cfg c now)) = GetAllTracks c /\
    GetAllTracks (onTrackEndLocked cfg c now) = GetAllTracks c /\
    GetAllTracks (fst (Pause c now)) = GetAllTracks c /\
    GetAllTracks (fst (resumeLocked cfg c now)) = GetAllTracks c /\
    GetAllTracks (fst (Play cfg c now)) = GetAllTracks c /\
    (forall qt, GetAllTracks (Enqueue cfg c qt now) = GetAllTracks c ++ [qt]) /\
    GetAllTracks (StopController c) = played c ++ queue c.
Proof.
  intros cfg c now.
  assert (Hres : GetAllTracks (fst (resumeLocked cfg c now)) = GetAllTracks c).
  { unfold resumeLocked. destruct (currentTrack c) eqn:Hc; [|reflexivity].
    destruct (negb _); [reflexivity|].
    destruct (_ <=? 0).
    - simpl. rewrite onTrackEndLocked_tracks. reflexivity.
    - simpl.
      match goal with |- context [checkDepletionLocked ?cf ?c0 ?n] =>
        pose proof (checkDepletionLocked_tracks cf c0 n) as Hk end.
      unfold GetAllTracks in *. simpl in *. rewrite Hk.
      destruct (notificationTime c) as [nt|]; [destruct (now <? nt)|]; simpl; rewrite Hc; reflexivity. }
  split; [apply playNextLocked_tracks|].
  split; [apply onTrackEndLocked_tracks|].
  split.
  { unfold Pause. destruct (currentTrack c) eqn:Hc; [|reflexivity].
    destruct (negb _); [reflexivity|].
    simpl. destruct (now <? startTime c); unfold GetAllTracks; simpl; rewrite Hc; reflexivity. }
  split; [exact Hres|].
  split.
  { unfold Play. destruct (state c); [apply playNextLocked_tracks|reflexivity|exact Hres]. }
  split.
  { intros qt. destruct (Enqueue_frame cfg c qt now) as [[Hp [Hc _]] Hq].
    unfold GetAllTracks. rewrite Hp, Hc, Hq, !app_assoc. reflexivity. }
  reflexivity.
Qed.


(** X9: a pause freezes the remaining time of the current track at its
    value when paused (the gap not yet played included); a resume at a
    later time with time left restarts playing, re-arms the track timer at
    exactly the moment that remaining time runs out, and the remaining time
    then decreases one for one. *)
Theorem pause_resume_remaining :
  forall (cfg : Config) (c : Controller) (qt : QueuedTrack) (p r t : Z),
    currentTrack c = Some qt -> state c = StatePlaying -> p <= r -> r <= t ->
    let R := Z.max 0 (Duration (QTrack qt) - (p - startTime c - pausedElapsed c)) in
    let c1 := fst (Pause c p) in
    snd (Pause c p) = None /\ state c1 = StatePaused /\
    getRemainingDurationLocked c1 t = R /\
    (0 < R ->
       let c2 := fst (resumeLocked cfg c1 r) in
       snd (resumeLocked cfg c1 r) = None /\ state c2 = StatePlaying /\
       currentTrack c2 = Some qt /\ timerCancel c2 = Some (r + R) /\
       getRemainingDurationLocked c2 t = Z.max 0 (R - (t - r))).
Proof.
  intros cfg c qt p r t Hc Hs Hpr Hrt R c1.
  (* the fields of c1 *)
  assert (Hc1 : currentTrack c1 = Some qt /\ state c1 = StatePaused /\ pausedAt c1 = Some p /\
                startTime c1 <= p /\
                p - startTime c1 - pausedElapsed c1 = p - startTime c - pausedElapsed c /\
                snd (Pause c p) = None).
  { subst c1. unfold Pause. rewrite Hc, Hs. simpl.
    destruct (Z.ltb_spec p (startTime c)); simpl; rewrite Hc; repeat split; lia. }
  destruct Hc1 as (Hc1c & Hc1s & Hc1p & Hc1st & Hc1e & Hok).
  assert (Hrem1 : forall u, p <= u -> getRemainingDurationLocked c1 u = R).
  { intros u Hu. unfold getRemainingDurationLocked. rewrite Hc1c, Hc1s, Hc1p.
    destruct (Z.ltb_spec u (startTime c1)); [lia|].
    subst R. destruct (Z.ltb_spec (Duration (QTrack qt) - (u - startTime c1 - pausedElapsed c1 - (u - p))) 0); lia. }
  split; [exact Hok|]. split; [exact Hc1s|]. split; [apply Hrem1; lia|].
  intros HR c2.
  assert (Hmid : getRemainingDurationLocked
                   (set_state StatePlaying (set_pause None (pausedElapsed c1 + (r - p)) c1)) r = R).
  { unfold getRemainingDurationLocked. simpl. rewrite Hc1c.
    destruct (Z.ltb_spec r (startTime c1)); [lia|].
    subst R. destruct (Z.ltb_spec (Duration (QTrack qt) - (r - startTime c1 - (pausedElapsed c1 + (r - p)))) 0); lia. }
  subst c2. unfold resumeLocked. rewrite Hc1c, Hc1s, Hc1p. simpl negb. cbv iota.
  rewrite Hmid. destruct (Z.leb_spec R 0); [lia|].
  set (c3 := set_state StatePlaying (set_pause None (pausedElapsed c1 + (r - p)) c1)).
  set (c4 := match notificationTime c3 with
             | Some nt => if r <? nt then set_notification_timer (Some (wall_clock_deadline r (nt - r), None)) c3 else c3
             | None => c3 end).
  assert (H4 : currentTrack c4 = Some qt /\ state c4 = StatePlaying /\ startTime c4 = startTime c1 /\
               pausedAt c4 = None /\ pausedElapsed c4 = pausedElapsed c1 + (r - p)).
  { subst c4 c3. simpl. destruct (notificationTime c1) as [nt|]; [destruct (r <? nt)|]; simpl;
      rewrite Hc1c; repeat split. }
  destruct H4 as (H4c & H4s & H4st & H4p & H4e).
  match goal with |- context [checkDepletionLocked ?cf ?c0 ?n] =>
    destruct (checkDepletionLocked_frame cf c0 n) as [(Hp & Hcc & Hst & Hstart & _ & _ & Hpa & Hpe & Ht & _) _] end.
  simpl. rewrite Hcc, Hst, Ht. simpl. rewrite H4c, H4s.
  split; [reflexivity|]. split; [reflexivity|]. split; [reflexivity|]. split; [unfold wall_clock_deadline; reflexivity|].
  unfold getRemainingDurationLocked. simpl. rewrite Hcc, Hst, Hstart, Hpa, Hpe. simpl.
  rewrite H4c, H4s, H4st, H4e.
  destruct (Z.ltb_spec t (startTime c1)); [lia|].
  subst R. destruct (Z.ltb_spec (Duration (QTrack qt) - (t - startTime c1 - (pausedElapsed c1 + (r - p)))) 0); lia.
Qed.

Definition witness_track : QueuedTrack :=
  mkQueuedTrack (mkTrack "t1" "song" ["x"] 100) (mkRequester "l1" "ann" RequesterTypeUser) 0.

Definition witness_playing : Controller :=
  mkController [] [] (Some witness_track) StatePlaying 10 10 None None 0 (Some 110) None None false [].

Lemma pause_resume_remaining_witness :
  currentTrack witness_playing = Some witness_track /\ state witness_playing = StatePlaying /\
  let R := Z.max 0 (Duration (QTrack witness_track) - (40 - startTime witness_playing - pausedElapsed witness_playing)) in
  let c1 := fst (Pause witness_playing 40) in
  snd (Pause witness_playing 40) = None /\ state c1 = StatePaused /\
  getRemainingDurationLocked c1 90 = R /\
  (0 < R ->
     let c2 := fst (resumeLocked (mkConfig 0 0 0) c1 60) in
     snd (resumeLocked (mkConfig 0 0 0) c1 60) = None /\ state c2 = StatePlaying /\
     currentTrack c2 = Some witness_track /\ timerCancel c2 = Some (60 + R) /\
     getRemainingDurationLocked c2 90 = Z.max 0 (R - (90 - 60))).
Proof.
  split; [reflexivity|]. split; [reflexivity|].
  apply (pause_resume_remaining (mkConfig 0 0 0) witness_playing witness_track 40 60 90);
    [reflexivity|reflexivity|lia|lia].
Defined.

Lemma reg_lookup_insert_eq (r : ListenerRegistry) (k : string) (s : Session) :
  <[k := s]> r !! k = Some s.
Proof. apply lookup_insert_eq. Qed.

Lemma reg_lookup_insert_ne (r : ListenerRegistry) (k k' : string) (s : Session) :
  k <> k' -> <[k := s]> r !! k' = r !! k'.
Proof. apply lookup_insert_ne. Qed.

Lemma reg_lookup_insert_Some (r : ListenerRegistry) (k k' : string) (s s' : Session) :
  <[k := s]> r !! k' = Some s' <-> (k = k' /\ s = s') \/ (k <> k' /\ r !! k' = Some s').
Proof. apply lookup_insert_Some. Qed.

Lemma reg_lookup_empty (k : string) : (∅ : ListenerRegistry) !! k = None.
Proof. apply lookup_empty. Qed.

(** A registry is well formed when every session sits under its own ID and
    no two non-kicked sessions share a non-empty external user ID. *)
Definition registry_wf (r : ListenerRegistry) : Prop :=
  (forall k s, r !! k = Some s -> SessID s = k) /\
  (forall k1 k2 s1 s2, r !! k1 = Some s1 -> r !! k2 = Some s2 ->
     ExternalUserID s1 <> EmptyString -> ExternalUserID s1 = ExternalUserID s2 ->
     IsKicked s1 = false -> IsKicked s2 = false -> k1 = k2).

(** The registry keys one run of [Join] visits cover the registry. *)
Definition order_covers (order : list string) (r : ListenerRegistry) : Prop :=
  forall k, is_Some (r !! k) -> In k order.

Lemma find_joined_sound (order : list string) (r : ListenerRegistry) (ext id : string) :
  find_joined order r ext = Some id ->
  exists k s, r !! k = Some s /\ ExternalUserID s = ext /\ IsKicked s = false /\ id = SessID s.
Proof.
  induction order as [|k ks IH]; simpl; [discriminate|].
  destruct (r !! k) as [s|] eqn:Hk; [|exact IH].
  destruct (String.eqb_spec (ExternalUserID s) ext); simpl; [|exact IH].
  destruct (IsKicked s) eqn:Hkick; simpl; [exact IH|].
  intros [= <-]. exists k, s. auto.
Qed.

Lemma find_joined_complete (order : list string) (r : ListenerRegistry) (ext : string) k s :
  In k order -> r !! k = Some s -> ExternalUserID s = ext -> IsKicked s = false ->
  is_Some (find_joined order r ext).
Proof.
  induction order as [|k' ks IH]; simpl; [contradiction|].
  intros [<-|Hin] Hk He Hn.
  - rewrite Hk, He, String.eqb_refl, Hn. simpl. eauto.
  - destruct (r !! k') as [s'|]; [|auto].
    destruct (_ && _); [eauto|auto].
Qed.

Lemma registry_wf_update (r : ListenerRegistry) (id : string) (s s' : Session) :
  registry_wf r -> r !! id = Some s ->
  SessID s' = SessID s -> ExternalUserID s' = ExternalUserID s ->
  (IsKicked s' = false -> IsKicked s = false) ->
  registry_wf (<[id := s']> r).
Proof.
  intros [Hid Huniq] Hs Hsid Hext Hkick. split.
  - intros k s0 Hk. destruct (decide (id = k)) as [<-|Hne].
    + rewrite reg_lookup_insert_eq in Hk. injection Hk as <-. rewrite Hsid. apply Hid. exact Hs.
    + rewrite reg_lookup_insert_ne in Hk by exact Hne. apply Hid. exact Hk.
  - intros k1 k2 s1 s2 H1 H2.
    destruct (decide (id = k1)) as [<-|Hne1];
      [rewrite reg_lookup_insert_eq in H1; injection H1 as <-
      |rewrite reg_lookup_insert_ne in H1 by exact Hne1];
    (destruct (decide (id = k2)) as [<-|Hne2];
      [rewrite reg_lookup_insert_eq in H2; injection H2 as <-
      |rewrite reg_lookup_insert_ne in H2 by exact Hne2]);
    intros He Heq Hk1 Hk2; try reflexivity.
    + apply (Huniq id k2 s s2); auto; congruence.
    + apply (Huniq k1 id s1 s); auto; congruence.
    + apply (Huniq k1 k2 s1 s2); auto.
Qed.

Lemma registry_join_wf (order : list string) (newID : string) (r : ListenerRegistry)
    (displayName ext : string) (isVIP : bool) :
  registry_wf r -> r !! newID = None -> order_covers order r ->
  registry_wf (snd (registry_join order newID r displayName ext isVIP)).
Proof.
  intros Hwf Hnew Hcov. pose proof Hwf as [Hid Huniq]. unfold registry_join.
  destruct (String.eqb_spec ext EmptyString) as [He|He].
  2: destruct (find_joined order r ext) as [id|] eqn:Hf; [exact Hwf|].
  all: cbv beta iota; cbn [snd]; split;
    [intros k s Hk; destruct (decide (newID = k)) as [<-|Hne];
       [rewrite reg_lookup_insert_eq in Hk; injection Hk as <-; reflexivity
       |rewrite reg_lookup_insert_ne in Hk by exact Hne; apply Hid; exact Hk]|].
  - intros k1 k2 s1 s2 H1 H2 Hne1 Heq Hk1 Hk2.
    destruct (decide (newID = k1)) as [<-|Hn1];
      [rewrite reg_lookup_insert_eq in H1; injection H1 as <-; simpl in Hne1; congruence
      |rewrite reg_lookup_insert_ne in H1 by exact Hn1].
    destruct (decide (newID = k2)) as [<-|Hn2];
      [rewrite reg_lookup_insert_eq in H2; injection H2 as <-; simpl in Heq; congruence
      |rewrite reg_lookup_insert_ne in H2 by exact Hn2].
    eapply Huniq; eauto.
  - intros k1 k2 s1 s2 H1 H2 Hne1 Heq Hk1 Hk2.
    assert (Hnone : forall k s, r !! k = Some s -> ExternalUserID s = ext -> IsKicked s = false -> False).
    { intros k s Hk Hx Hn. destruct (find_joined_complete order r ext k s) as [x Hx'];
        [apply Hcov; eauto|exact Hk|exact Hx|exact Hn|congruence]. }
    destruct (decide (newID = k1)) as [<-|Hn1];
      [rewrite reg_lookup_insert_eq in H1; injection H1 as <-
      |rewrite reg_lookup_insert_ne in H1 by exact Hn1];
    (destruct (decide (newID = k2)) as [<-|Hn2];
      [rewrite reg_lookup_insert_eq in H2; injection H2 as <-
      |rewrite reg_lookup_insert_ne in H2 by exact Hn2]); simpl in *; auto.
    + exfalso. eapply Hnone; eauto.
    + exfalso. eapply Hnone; eauto.
    + eapply Huniq; eauto.
Qed.

(** X10: well-formedness of the registry is kept by every registry
    operation: [Join] (with a fresh ID and any iteration order that covers
    the map), [Kick], [IncrementPending] and [DecrementPending]. *)
Theorem registry_operations_keep_wf :
  forall (r : ListenerRegistry),
    registry_wf r ->
    (forall order newID displayName ext isVIP,
       r !! newID = None -> order_covers order r ->
       registry_wf (snd (registry_join order newID r displayName ext isVIP))) /\
    (forall id, registry_wf (fst (registry_kick r id))) /\
    (forall id now, registry_wf (fst (registry_increment_pending r id now))) /\
    (forall id, registry_wf (registry_decrement_pending r id)).
Proof.
  intros r Hwf. split; [intros; apply registry_join_wf; assumption|].
  split; [|split].
  - intros id. unfold registry_kick. destruct (r !! id) as [s|] eqn:Hs; [|exact Hwf].
    apply (registry_wf_update r id s); auto. simpl. discriminate.
  - intros id now. unfold registry_increment_pending. destruct (r !! id) as [s|] eqn:Hs; [|exact Hwf].
    apply (registry_wf_update r id s); auto.
  - intros id. unfold registry_decrement_pending. destruct (r !! id) as [s|] eqn:Hs; [|exact Hwf].
    apply (registry_wf_update r id s); auto;
      unfold DecrementPendingTracks; destruct (0 <? PendingTracks s); auto.
Qed.

Lemma registry_wf_empty : registry_wf ∅.
Proof. split; intros *; rewrite reg_lookup_empty; discriminate. Qed.

Lemma registry_operations_keep_wf_witness :
  registry_wf ∅ /\
  ((forall order newID displayName ext isVIP,
      (∅ : ListenerRegistry) !! newID = None -> order_covers order ∅ ->
      registry_wf (snd (registry_join order newID ∅ displayName ext isVIP))) /\
   (forall id, registry_wf (fst (registry_kick ∅ id))) /\
   (forall id now, registry_wf (fst (registry_increment_pending ∅ id now))) /\
   (forall id, registry_wf (registry_decrement_pending ∅ id))).
Proof. split; [exact registry_wf_empty|]. apply registry_operations_keep_wf. exact registry_wf_empty. Defined.

(** X11: joining again with the same non-empty external user ID returns
    the ID of the first join and leaves the registry as it was, whatever
    order either run iterates the map in. *)
Theorem registry_rejoin_same_id :
  forall (r : ListenerRegistry) (order1 order2 : list string) (id1 id2 dn1 dn2 ext : string)
         (vip1 vip2 : bool),
    registry_wf r -> ext <> EmptyString -> r !! id1 = None -> order_covers order1 r ->
    let j := registry_join order1 id1 r dn1 ext vip1 in
    order_covers order2 (snd j) ->
    registry_join order2 id2 (snd j) dn2 ext vip2 = j.
Proof.
  intros r order1 order2 id1 id2 dn1 dn2 ext vip1 vip2 Hwf He Hnew Hcov1 j Hcov2.
  assert (Hwf1 : registry_wf (snd j)) by (apply registry_join_wf; assumption).
  (* some non-kicked session of [ext] in the registry after the first join *)
  assert (Hex : exists k s, snd j !! k = Some s /\ ExternalUserID s = ext /\
                            IsKicked s = false /\ fst j = SessID s).
  { subst j. unfold registry_join.
    destruct (String.eqb_spec ext EmptyString) as [|_]; [congruence|].
    destruct (find_joined order1 r ext) as [id|] eqn:Hf.
    - apply find_joined_sound in Hf. exact Hf.
    - exists id1, (NewSession id1 dn1 ext vip1). simpl.
      rewrite reg_lookup_insert_eq. auto. }
  destruct Hex as (k & s & Hk & Hx & Hn & Hj).
  unfold registry_join at 1.
  destruct (String.eqb_spec ext EmptyString) as [|_]; [congruence|].
  destruct (find_joined order2 (snd j) ext) as [id|] eqn:Hf.
  - apply find_joined_sound in Hf as (k' & s' & Hk' & Hx' & Hn' & ->).
    destruct Hwf1 as [Hid Huniq].
    assert (k' = k) by (eapply Huniq; eauto; congruence).
    subst k'. rewrite (Hid _ _ Hk'), <- (Hid _ _ Hk), <- Hj.
    symmetry. apply surjective_pairing.
  - exfalso. destruct (find_joined_complete order2 (snd j) ext k s) as [x Hx2];
      [apply Hcov2; eauto|exact Hk|exact Hx|exact Hn|congruence].
Qed.

Definition witness_registry : ListenerRegistry :=
  <["l1" := mkSession "l1" "ann" "ext-ann" 0 false false 0 None]> ∅.

Lemma registry_rejoin_same_id_witness :
  registry_join ["l1"; "l2"] "l3" (snd (registry_join ["l1"] "l2" witness_registry "bob" "ext-bob" false))
    "bobby" "ext-bob" true
  = registry_join ["l1"] "l2" witness_registry "bob" "ext-bob" false.
Proof.
  apply registry_rejoin_same_id.
  - split; intros *; unfold witness_registry;
      repeat (rewrite reg_lookup_insert_Some || rewrite reg_lookup_empty); intros;
      repeat match goal with H : _ \/ _ |- _ => destruct H | H : _ /\ _ |- _ => destruct H end;
      subst; try discriminate; reflexivity.
  - discriminate.
  - reflexivity.
  - intros k [s Hs]. unfold witness_registry in Hs.
    apply reg_lookup_insert_Some in Hs as [[<- _]|[_ Hs]]; [left; reflexivity|rewrite reg_lookup_empty in Hs; discriminate].
  - intros k [s Hs].
    assert (E : snd (registry_join ["l1"] "l2" witness_registry "bob" "ext-bob" false)
                = <["l2" := NewSession "l2" "bob" "ext-bob" false]> witness_registry) by reflexivity.
    rewrite E in Hs.
    apply reg_lookup_insert_Some in Hs as [[<- _]|[_ Hs]]; [right; left; reflexivity|].
    unfold witness_registry in Hs.
    apply reg_lookup_insert_Some in Hs as [[<- _]|[_ Hs]];
      [left; reflexivity|rewrite reg_lookup_empty in Hs; discriminate].
Defined.

Lemma Execute_member_reject :
  forall fs f req t l ty,
    In f fs -> AppliesTo f ty = true -> Accepted (check f req t l) = false ->
    Accepted (Execute fs req t l ty) = false.
Proof.
  induction fs as [|g gs IH]; intros f req t l ty Hin Ha Hr; [contradiction|].
  simpl. destruct Hin as [<-|Hin].
  - rewrite Ha, Hr. simpl. exact Hr.
  - destruct (AppliesTo g ty); simpl; [|eapply IH; eauto].
    destruct (Accepted (check g req t l)) eqn:Hg; simpl; [eapply IH; eauto|exact Hg].
Qed.

Lemma RequestTrack_refused_unchanged :
  forall GetTrack filters cfg m listenerID trackID now,
    fst (fst (fst (RequestTrack GetTrack filters cfg m listenerID trackID now))) = false ->
    snd (RequestTrack GetTrack filters cfg m listenerID trackID now) = m.
Proof.
  intros GetTrack filters cfg m lid tid now. unfold RequestTrack, registry_get.
  destruct (listenerReg m !! lid) as [s|]; [|reflexivity].
  destruct (GetTrack tid) as [t|]; [|reflexivity].
  destruct (negb _); [reflexivity|].
  destruct (registry_increment_pending _ _ _). discriminate.
Qed.

Lemma RequestTrack_accepted_inv :
  forall GetTrack filters cfg m listenerID trackID now,
    fst (fst (fst (RequestTrack GetTrack filters cfg m listenerID trackID now))) = true ->
    exists s t,
      listenerReg m !! listenerID = Some s /\ GetTrack trackID = Some t /\
      Accepted (Execute filters (mkTrackRequest listenerID trackID) t s RequesterTypeUser) = true /\
      snd (RequestTrack GetTrack filters cfg m listenerID trackID now) =
      mkSessionManager (<[listenerID := IncrementPendingTracks s now]> (listenerReg m))
        (Enqueue cfg (playback m)
           (mkQueuedTrack t (mkRequester (SessID s) (DisplayName s) RequesterTypeUser) now) now)
        (addRecentArtistsLocked (maxRecentArtists m) (recentArtists m) (Artists t))
        (maxRecentArtists m).
Proof.
  intros GetTrack filters cfg m lid tid now. unfold RequestTrack, registry_get.
  destruct (listenerReg m !! lid) as [s|] eqn:Hs; [|discriminate].
  destruct (GetTrack tid) as [t|] eqn:Ht; [|discriminate].
  destruct (Accepted _) eqn:Ha; simpl; [|discriminate].
  intros _. exists s, t. unfold registry_increment_pending. rewrite Hs. auto.
Qed.

(** X12: kicking a listener who is not yet kicked succeeds; validation
    then reports the listener as kicked; and a later [Join] with the same
    external user ID creates a new session under a new ID, whatever the
    iteration order. *)
Theorem kick_then_rejoin :
  forall (r : ListenerRegistry) (id : string) (s : Session) (order : list string)
         (newID displayName : string) (isVIP : bool),
    registry_wf r -> r !! id = Some s -> IsKicked s = false ->
    let r1 := fst (registry_kick r id) in
    snd (registry_kick r id) = None /\
    registry_validate r1 id = Some ErrListenerKicked /\
    registry_join order newID r1 displayName (ExternalUserID s) isVIP =
      (newID, <[newID := NewSession newID displayName (ExternalUserID s) isVIP]> r1).
Proof.
  intros r id s order newID dn vip [Hid Huniq] Hs Hk r1.
  assert (Hr1 : r1 = <[id := Kick s]> r) by (subst r1; unfold registry_kick; rewrite Hs; reflexivity).
  split; [unfold registry_kick; rewrite Hs; reflexivity|].
  split; [rewrite Hr1; unfold registry_validate; rewrite reg_lookup_insert_eq; reflexivity|].
  unfold registry_join.
  destruct (String.eqb_spec (ExternalUserID s) EmptyString) as [|He]; [reflexivity|].
  destruct (find_joined order r1 (ExternalUserID s)) as [x|] eqn:Hf; [|reflexivity].
  exfalso. apply find_joined_sound in Hf as (k & s' & Hk' & Hx & Hn & _).
  rewrite Hr1 in Hk'. apply reg_lookup_insert_Some in Hk' as [[<- <-]|[Hne Hk']].
  - simpl in Hn. discriminate.
  - apply Hne. symmetry. apply (Huniq k id s' s); auto; congruence.
Qed.

Lemma kick_then_rejoin_witness :
  let s := mkSession "l1" "ann" "ext-ann" 0 false false 0 None in
  let r1 := fst (registry_kick witness_registry "l1") in
  snd (registry_kick witness_registry "l1") = None /\
  registry_validate r1 "l1" = Some ErrListenerKicked /\
  registry_join ["l1"] "l2" r1 "ann" (ExternalUserID s) false =
    (("l2")%string, <["l2" := NewSession "l2" "ann" (ExternalUserID s) false]> r1).
Proof.
  intros s. apply (kick_then_rejoin witness_registry "l1" s ["l1"] "l2" "ann" false).
  - split; intros *; unfold witness_registry;
      rewrite ?reg_lookup_insert_Some, ?reg_lookup_empty; intros;
      repeat match goal with H : _ \/ _ |- _ => destruct H | H : _ /\ _ |- _ => destruct H end;
      subst; try discriminate; reflexivity.
  - reflexivity.
  - reflexivity.
Defined.

(** X13: with the kicked-listener filter in the chain, a kicked listener's
    request is never accepted and leaves the session manager unchanged. *)
Theorem kicked_listener_refused :
  forall (GetTrack : string -> option Track) (filters : list Filter) (cfg : Config)
         (m : SessionManager) (listenerID trackID : string) (now : Z) (s : Session),
    In KickedFilter filters -> listenerReg m !! listenerID = Some s -> IsKicked s = true ->
    fst (fst (fst (RequestTrack GetTrack filters cfg m listenerID trackID now))) = false /\
    snd (RequestTrack GetTrack filters cfg m listenerID trackID now) = m.
Proof.
  intros GetTrack filters cfg m lid tid now s Hin Hs Hk.
  destruct (fst (fst (fst (RequestTrack GetTrack filters cfg m lid tid now)))) eqn:Hr.
  - exfalso. apply RequestTrack_accepted_inv in Hr as (s' & t & Hs' & _ & Ha & _).
    rewrite Hs in Hs'. injection Hs' as <-.
    rewrite (Execute_member_reject filters KickedFilter _ t s RequesterTypeUser Hin eq_refl) in Ha;
      [discriminate|simpl; rewrite Hk; reflexivity].
  - split; [reflexivity|]. apply RequestTrack_refused_unchanged. exact Hr.
Qed.

Definition witness_manager : SessionManager :=
  mkSessionManager witness_registry NewController [] 3.

Definition witness_catalog (id : string) : option Track :=
  if String.eqb id "t1" then Some (mkTrack "t1" "song" ["x"] 100) else None.

Lemma kicked_listener_refused_witness :
  let m := mkSessionManager (fst (registry_kick witness_registry "l1")) NewController [] 3 in
  fst (fst (fst (RequestTrack witness_catalog [KickedFilter] (mkConfig 0 0 0) m "l1" "t1" 0))) = false /\
  snd (RequestTrack witness_catalog [KickedFilter] (mkConfig 0 0 0) m "l1" "t1" 0) = m.
Proof.
  intros m. apply (kicked_listener_refused _ _ _ _ _ _ _ (Kick (mkSession "l1" "ann" "ext-ann" 0 false false 0 None))).
  - left. reflexivity.
  - reflexivity.
  - reflexivity.
Defined.

(** X14: with the user-pending filter in the chain, once a non-VIP
    listener's request has been accepted, that listener's next request is
    refused, whatever track it asks for. *)
Theorem user_pending_blocks_second_request :
  forall (GetTrack : string -> option Track) (filters : list Filter) (cfg : Config)
         (m : SessionManager) (listenerID trackID trackID' : string) (now now' : Z) (s : Session),
    In UserPendingFilter filters -> listenerReg m !! listenerID = Some s ->
    VIPStatus s = false -> 0 <= PendingTracks s < int64_max ->
    fst (fst (fst (RequestTrack GetTrack filters cfg m listenerID trackID now))) = true ->
    fst (fst (fst (RequestTrack GetTrack filters cfg
                     (snd (RequestTrack GetTrack filters cfg m listenerID trackID now))
                     listenerID trackID' now'))) = false.
Proof.
  intros GetTrack filters cfg m lid tid tid' now now' s Hin Hs Hv Hp Hacc.
  apply RequestTrack_accepted_inv in Hacc as (s' & t & Hs' & _ & _ & ->).
  rewrite Hs in Hs'. injection Hs' as <-.
  destruct (fst (fst (fst (RequestTrack GetTrack filters cfg _ lid tid' now')))) eqn:Hr; [|reflexivity].
  exfalso. apply RequestTrack_accepted_inv in Hr as (s2 & t2 & Hs2 & _ & Ha & _).
  simpl in Hs2. rewrite reg_lookup_insert_eq in Hs2. injection Hs2 as <-.
  rewrite (Execute_member_reject filters UserPendingFilter _ t2 _ RequesterTypeUser Hin eq_refl) in Ha;
    [discriminate|].
  simpl. rewrite Hv. rewrite wrap_int64_small by (unfold int64_min, int64_max in *; lia).
  destruct (Z.ltb_spec 0 (PendingTracks s + 1)); [reflexivity|lia].
Qed.

Lemma user_pending_blocks_second_request_witness :
  fst (fst (fst (RequestTrack witness_catalog [UserPendingFilter] (mkConfig 0 0 0)
                   (snd (RequestTrack witness_catalog [UserPendingFilter] (mkConfig 0 0 0)
                           witness_manager "l1" "t1" 0))
                   "l1" "t1" 5))) = false.
Proof.
  apply (user_pending_blocks_second_request _ _ _ _ _ _ _ _ _
           (mkSession "l1" "ann" "ext-ann" 0 false false 0 None)).
  - left. reflexivity.
  - reflexivity.
  - reflexivity.
  - unfold int64_max. simpl. lia.
  - reflexivity.
Defined.

(** X15: once a request is accepted, the [TrackStarted] event of the
    queued track gives the listener's pending count back: [onTrackStarted]
    decrements it under the requester ID the queued track carries, which in
    a well-formed registry is the listener's. *)
Theorem request_then_track_started :
  forall (GetTrack : string -> option Track) (filters : list Filter) (cfg : Config)
         (m : SessionManager) (listenerID trackID : string) (now : Z) (s : Session),
    registry_wf (listenerReg m) -> listenerReg m !! listenerID = Some s ->
    0 <= PendingTracks s < int64_max ->
    fst (fst (fst (RequestTrack GetTrack filters cfg m listenerID trackID now))) = true ->
    let m' := snd (RequestTrack GetTrack filters cfg m listenerID trackID now) in
    exists qt s',
      queue (playback m') = queue (playback m) ++ [qt] /\
      RequesterID (QRequester qt) = listenerID /\
      listenerReg (onTrackStarted m' (Some qt)) !! listenerID = Some s' /\
      PendingTracks s' = PendingTracks s /\
      TotalRequests s' = wrap_int64 (TotalRequests s + 1).
Proof.
  intros GetTrack filters cfg m lid tid now s [Hid _] Hs Hp Hacc m'.
  subst m'. apply RequestTrack_accepted_inv in Hacc as (s1 & t & Hs1 & _ & _ & ->).
  rewrite Hs in Hs1. injection Hs1 as <-.
  set (qt := mkQueuedTrack t (mkRequester (SessID s) (DisplayName s) RequesterTypeUser) now).
  exists qt, (DecrementPendingTracks (IncrementPendingTracks s now)).
  split; [apply Enqueue_frame|].
  split; [simpl; apply (Hid _ _ Hs)|].
  simpl. rewrite (Hid _ _ Hs). unfold registry_decrement_pending.
  rewrite reg_lookup_insert_eq.
  split; [rewrite reg_lookup_insert_eq; reflexivity|].
  unfold DecrementPendingTracks, IncrementPendingTracks. simpl.
  rewrite wrap_int64_small by (unfold int64_min, int64_max in *; lia).
  destruct (Z.ltb_spec 0 (PendingTracks s + 1)); [|lia]. simpl.
  rewrite wrap_int64_small by (unfold int64_min, int64_max in *; lia).
  split; [lia|reflexivity].
Qed.

Lemma witness_registry_wf : registry_wf witness_registry.
Proof.
  split; intros *; unfold witness_registry;
    rewrite ?reg_lookup_insert_Some, ?reg_lookup_empty; intros;
    repeat match goal with H : _ \/ _ |- _ => destruct H | H : _ /\ _ |- _ => destruct H end;
    subst; try discriminate; reflexivity.
Qed.

Lemma request_then_track_started_witness :
  let m' := snd (RequestTrack witness_catalog [] (mkConfig 0 0 0) witness_manager "l1" "t1" 0) in
  exists qt s',
    queue (playback m') = queue (playback witness_manager) ++ [qt] /\
    RequesterID (QRequester qt) = "l1" /\
    listenerReg (onTrackStarted m' (Some qt)) !! "l1" = Some s' /\
    PendingTracks s' = 0 /\ TotalRequests s' = wrap_int64 (0 + 1).
Proof.
  apply (request_then_track_started witness_catalog [] (mkConfig 0 0 0) witness_manager "l1" "t1" 0
           (mkSession "l1" "ann" "ext-ann" 0 false false 0 None)).
  - exact witness_registry_wf.
  - reflexivity.
  - unfold int64_max. simpl. lia.
  - reflexivity.
Defined.

(** X16: [Manager.Join] refuses once the session has terminated and leaves
    the registry alone; otherwise, for an external user with no active
    session, it registers a fresh, not kicked session with no pending track,
    which is VIP exactly when the display name is an admin display name. *)
Theorem ManagerJoin_outcomes :
  forall (ph : Phase) (adminDisplayNames order : list string) (newID : string)
         (r : ListenerRegistry) (displayName externalUserID : string),
    (ph = PhaseTerminated ->
       ManagerJoin ph adminDisplayNames order newID r displayName externalUserID =
       ((EmptyString, Some ErrSessionNotRunning), r)) /\
    (ph <> PhaseTerminated ->
     (externalUserID = EmptyString \/
      forall k s, r !! k = Some s -> ExternalUserID s = externalUserID -> IsKicked s = true) ->
     exists s,
       ManagerJoin ph adminDisplayNames order newID r displayName externalUserID =
       ((newID, None), <[newID := s]> r) /\
       SessID s = newID /\ VIPStatus s = IsAdminDisplayName adminDisplayNames displayName /\
       PendingTracks s = 0 /\ IsKicked s = false).
Proof.
  intros ph admins order newID r dn ext. split.
  - intros ->. reflexivity.
  - intros Hph Hext.
    assert (Hpe : phase_eqb ph PhaseTerminated = false) by (destruct ph; try reflexivity; congruence).
    exists (NewSession newID dn ext (IsAdminDisplayName admins dn)).
    unfold ManagerJoin. rewrite Hpe. unfold registry_join.
    destruct (String.eqb_spec ext EmptyString) as [He|He].
    + simpl. auto.
    + destruct Hext as [|Hk]; [congruence|].
      destruct (find_joined order r ext) as [x|] eqn:Hf.
      * exfalso. apply find_joined_sound in Hf as (k & s & Hks & Hx & Hn & _).
        rewrite (Hk k s Hks Hx) in Hn. discriminate.
      * simpl. auto.
Qed.

Lemma ManagerJoin_outcomes_witness :
  (PhaseActive = PhaseTerminated ->
     ManagerJoin PhaseActive ["host"] ["l1"] "l2" witness_registry "host" "ext-host" =
     ((EmptyString, Some ErrSessionNotRunning), witness_registry)) /\
  (PhaseActive <> PhaseTerminated ->
   ("ext-host"%string = EmptyString \/
    forall k s, witness_registry !! k = Some s -> ExternalUserID s = "ext-host" -> IsKicked s = true) ->
   exists s,
     ManagerJoin PhaseActive ["host"] ["l1"] "l2" witness_registry "host" "ext-host" =
     (("l2"%string, None), <["l2" := s]> witness_registry) /\
     SessID s = "l2" /\ VIPStatus s = IsAdminDisplayName ["host"] "host" /\
     PendingTracks s = 0 /\ IsKicked s = false).
Proof. apply ManagerJoin_outcomes. Defined.

(** X17: the filter chain [setupFilters] builds judges a request of any
    non-user class (BGM, opening, ending, system) by the market filter and
    the duration-limit filter alone, skipping the acceptance, kicked,
    user-pending and duplicate filters; a user request is refused by the
    acceptance filter first whenever that filter refuses. *)
Theorem setupFilters_non_user :
  forall (acc : AcceptanceDoneFilter) (market : string) (IsAvailableInMarket : Track -> string -> bool)
         (allTracks : list QueuedTrack) (kickedEnabled pendingEnabled duplicateEnabled : bool)
         (durationLimit : option Filter) (req : TrackRequest) (t : Track) (l : Session),
    let chain := setupFilters acc market IsAvailableInMarket allTracks
                   kickedEnabled pendingEnabled duplicateEnabled durationLimit in
    (forall ty, ty <> RequesterTypeUser ->
       Execute chain req t l ty =
       Execute (MarketFilter market IsAvailableInMarket ::
                match durationLimit with Some f => [f] | None => [] end) req t l ty) /\
    (Accepted (acceptance_done_check acc) = false ->
       Execute chain req t l RequesterTypeUser = acceptance_done_check acc).
Proof.
  intros acc market avail all kE pE dE dur req t l chain. subst chain. split.
  - intros ty Hty.
    assert (Hu : is_user ty = false) by (destruct ty; simpl; congruence).
    unfold setupFilters. destruct kE, pE, dE; simpl; rewrite ?Hu; simpl; reflexivity.
  - intros H. unfold setupFilters. simpl. rewrite H. reflexivity.
Qed.

Lemma dedup_fold :
  forall (tracks : list Track) (seen : gmap string bool) (result : list Track),
    (forall id, flag_of seen id = true <-> In id (map ID result)) ->
    NoDup (map ID result) ->
    let out := fold_left (fun (acc : gmap string bool * list Track) t =>
                            let (seen, result) := acc in
                            if negb (flag_of seen (ID t)) then (<[ID t := true]> seen, result ++ [t])
                            else acc) tracks (seen, result) in
    NoDup (map ID (snd out)) /\ sublist (snd out) (result ++ tracks) /\
    (forall id, In id (map ID (snd out)) <-> In id (map ID result) \/ In id (map ID tracks)).
Proof.
  induction tracks as [|t ts IH]; intros seen result Hseen Hnd out; subst out; simpl.
  - rewrite app_nil_r. split; [exact Hnd|]. split; [reflexivity|]. tauto.
  - destruct (flag_of seen (ID t)) eqn:Hf; simpl.
    + destruct (IH seen result Hseen Hnd) as (H1 & H2 & H3).
      split; [exact H1|]. split.
      * transitivity (result ++ ts); [exact H2|]. apply sublist_app; [reflexivity|apply sublist_cons; reflexivity].
      * intros id. rewrite H3. apply Hseen in Hf. split; [tauto|].
        intros [H|[H|H]]; auto. subst id. auto.
    + assert (Hnin : ~ In (ID t) (map ID result)).
      { intros H. apply Hseen in H. congruence. }
      destruct (IH (<[ID t := true]> seen) (result ++ [t])) as (H1 & H2 & H3).
      * intros id. unfold flag_of. rewrite map_app, in_app_iff. simpl.
        destruct (decide (ID t = id)) as [<-|Hne].
        -- rewrite lookup_insert_eq. simpl. tauto.
        -- rewrite lookup_insert_ne by exact Hne. fold (flag_of seen id). rewrite Hseen.
           split; [tauto|]. intros [H|[H|[]]]; [exact H|congruence].
      * rewrite map_app. apply NoDup_app. split; [exact Hnd|]. split.
        -- intros x Hx Hx'. apply list_elem_of_singleton in Hx'. subst x.
           apply Hnin. apply list_elem_of_In. exact Hx.
        -- apply NoDup_singleton.
      * split; [exact H1|]. split.
        -- rewrite <- app_assoc in H2. exact H2.
        -- intros id. rewrite H3, map_app, in_app_iff. simpl. tauto.
Qed.

(** X18: [deduplicateByID] keeps at most one track per ID, keeps the input
    order (its result is a sublist of the input) and loses no ID. *)
Theorem deduplicateByID_spec :
  forall (tracks : list Track),
    NoDup (map ID (deduplicateByID tracks)) /\
    sublist (deduplicateByID tracks) tracks /\
    (forall id, In id (map ID (deduplicateByID tracks)) <-> In id (map ID tracks)).
Proof.
  intros tracks. unfold deduplicateByID.
  destruct (dedup_fold tracks ∅ []) as (H1 & H2 & H3).
  - intros id. unfold flag_of. rewrite lookup_empty. simpl. split; [discriminate|contradiction].
  - constructor.
  - split; [exact H1|]. split; [exact H2|]. intros id. rewrite H3. simpl. tauto.
Qed.

Lemma contains_In (tracks : list Track) (id : string) :
  contains tracks id = true <-> In id (map ID tracks).
Proof.
  unfold contains. rewrite existsb_exists. split.
  - intros (t & Ht & He). apply String.eqb_eq in He. subst id. apply in_map. exact Ht.
  - intros Hin. apply in_map_iff in Hin as (t & <- & Ht). exists t. split; [exact Ht|]. apply String.eqb_refl.
Qed.

Lemma playlist_fold_inv :
  forall (ex : gmap string bool) (newTracks acc : list Track),
    NoDup (map ID acc) -> Forall (fun t => flag_of ex (ID t) = false) acc ->
    let out := fold_left (fun acc t =>
                            if negb (flag_of ex (ID t)) && negb (contains acc (ID t))
                            then acc ++ [t] else acc) newTracks acc in
    NoDup (map ID out) /\ Forall (fun t => flag_of ex (ID t) = false) out.
Proof.
  induction newTracks as [|t ts IH]; intros acc Hnd Hok out; subst out; simpl; [auto|].
  destruct (flag_of ex (ID t)) eqn:Hf; simpl; [apply IH; auto|].
  destruct (contains acc (ID t)) eqn:Hc; simpl; [apply IH; auto|].
  apply IH.
  - rewrite map_app. apply NoDup_app. split; [exact Hnd|]. split; [|apply NoDup_singleton].
    intros x Hx Hx'. apply list_elem_of_singleton in Hx'. subst x.
    apply list_elem_of_In, contains_In in Hx. congruence.
  - apply Forall_app. split; [exact Hok|]. constructor; [exact Hf|constructor].
Qed.

(** X19: [PlaylistProvider.GetCandidates]: a non-positive count returns
    nothing and leaves the provider alone, a failed fetch leaves it alone,
    and a successful call returns at most [count] tracks, none of them in
    the exclusion set, while the returned tracks and the new cache together
    never hold the same ID twice (given a cache without repeated IDs). *)
Theorem playlist_GetCandidates_spec :
  forall (GetPlaylistTracksRandom : Z -> option (list Track)) (p : PlaylistProvider)
         (count : Z) (existingTrackIDs : gmap string bool),
    let out := playlist_GetCandidates GetPlaylistTracksRandom p count existingTrackIDs in
    (count <= 0 -> out = (Some [], p)) /\
    (fst out = None -> snd out = p) /\
    (forall result, fst out = Some result ->
       NoDup (map ID (cache p)) ->
       Z.of_nat (length result) <= Z.max 0 count /\
       Forall (fun t => flag_of existingTrackIDs (ID t) = false) result /\
       NoDup (map ID (result ++ cache (snd out))) /\
       candidateCount (snd out) = candidateCount p).
Proof.
  intros fetch p count ex out. subst out. unfold playlist_GetCandidates.
  destruct (Z.leb_spec count 0) as [Hc|Hc].
  { split; [reflexivity|]. split; [discriminate|]. intros result [= <-] Hnd.
    simpl. split; [lia|]. auto. }
  split; [lia|].
  set (avail := List.filter _ (cache p)).
  assert (Hav : NoDup (map ID (cache p)) ->
                NoDup (map ID avail) /\ Forall (fun t => flag_of ex (ID t) = false) avail).
  { intros Hnd. subst avail. split.
    - clear -Hnd. induction (cache p) as [|t ts IH]; simpl; [constructor|].
      simpl in Hnd. apply NoDup_cons in Hnd as [Hn Hnd].
      destruct (negb _); simpl; [|auto]. constructor; [|auto].
      intros Hin. apply Hn. apply list_elem_of_In in Hin. apply list_elem_of_In.
      apply in_map_iff in Hin as (t' & Heq & Ht'). apply filter_In in Ht' as [Ht' _].
      rewrite <- Heq. apply in_map. exact Ht'.
    - apply List.Forall_forall. intros t Ht. apply filter_In in Ht as [_ Ht].
      apply negb_true_iff in Ht. exact Ht. }
  set (fetched := if Z.of_nat (length avail) <? count then _ else Some avail).
  assert (Hfe : forall a, fetched = Some a -> NoDup (map ID (cache p)) ->
                NoDup (map ID a) /\ Forall (fun t => flag_of ex (ID t) = false) a).
  { intros a Ha Hnd. destruct (Hav Hnd) as [Hn Hok]. subst fetched.
    destruct (_ <? count); [|injection Ha as <-; auto].
    destruct (fetch _) as [newTracks|]; [|discriminate]. injection Ha as <-.
    apply playlist_fold_inv; assumption. }
  clearbody fetched.
  destruct fetched as [a|].
  2: { cbv beta iota. cbn [fst snd]. split; [reflexivity|]. discriminate. }
  cbv beta iota.
  destruct (Nat.eqb_spec (length a) 0) as [Hl|Hl]; cbn [fst snd]; (split; [discriminate|]).
  { intros result [= <-] Hnd. simpl. split; [lia|]. auto. }
  intros result [= <-] Hnd. destruct (Hfe a eq_refl Hnd) as [Hn Hok]. cbn [cache].
  split; [rewrite length_take; lia|].
  split; [apply Forall_take; exact Hok|].
  split; [rewrite take_drop; exact Hn|reflexivity].
Qed.

Lemma playlist_GetCandidates_spec_witness :
  let out := playlist_GetCandidates (fun _ => Some [mkTrack "t2" "b" ["y"] 5])
               (mkPlaylistProvider [mkTrack "t1" "a" ["x"] 5] 3) 2 ∅ in
  (2 <= 0 -> out = (Some [], mkPlaylistProvider [mkTrack "t1" "a" ["x"] 5] 3)) /\
  (fst out = None -> snd out = mkPlaylistProvider [mkTrack "t1" "a" ["x"] 5] 3) /\
  (forall result, fst out = Some result ->
     NoDup (map ID (cache (mkPlaylistProvider [mkTrack "t1" "a" ["x"] 5] 3))) ->
     Z.of_nat (length result) <= Z.max 0 2 /\
     Forall (fun t => flag_of ∅ (ID t) = false) result /\
     NoDup (map ID (result ++ cache (snd out))) /\
     candidateCount (snd out) = candidateCount (mkPlaylistProvider [mkTrack "t1" "a" ["x"] 5] 3)).
Proof. apply playlist_GetCandidates_spec. Defined.

Lemma chain_collect_app :
  forall providers count seedTracks cur acc,
    chain_collect providers count seedTracks cur acc =
    acc ++ chain_collect providers count seedTracks cur [].
Proof.
  induction providers as [|pm ps IH]; intros count seeds cur acc; simpl.
  - rewrite app_nil_r. reflexivity.
  - destruct (Provider pm count seeds cur) as [cands|]; [|apply IH].
    destruct (length cands =? 0)%nat; [apply IH|].
    set (M := map _ cands). rewrite (IH _ _ _ (acc ++ M)), (IH _ _ _ ([] ++ M)).
    simpl. rewrite app_assoc. reflexivity.
Qed.

Lemma chain_collect_nil :
  forall providers count seedTracks cur,
    chain_collect providers count seedTracks cur [] = [] <->
    Forall (fun pm => match Provider pm count seedTracks cur with
                      | Some (_ :: _) => False | _ => True end) providers.
Proof.
  induction providers as [|pm ps IH]; intros count seeds cur; simpl.
  - split; [constructor|reflexivity].
  - rewrite Forall_cons. destruct (Provider pm count seeds cur) as [[|t ts]|]; simpl.
    + rewrite IH. tauto.
    + rewrite chain_collect_app. split; [discriminate|tauto].
    + rewrite IH. tauto.
Qed.

Lemma flag_of_fold_insert :
  forall (ts : list Track) (cur : gmap string bool) (id : string),
    flag_of (fold_left (fun ex t => <[ID t := true]> ex) ts cur) id = true <->
    flag_of cur id = true \/ In id (map ID ts).
Proof.
  induction ts as [|t ts IH]; intros cur id; simpl; [tauto|].
  rewrite IH. unfold flag_of. destruct (decide (ID t = id)) as [<-|Hne].
  - rewrite lookup_insert_eq. simpl. tauto.
  - rewrite lookup_insert_ne by exact Hne. split; [intros [H|H]; auto|intros [H|[H|H]]; auto; congruence].
Qed.

Lemma chain_collect_inv :
  forall providers count seedTracks (ex cur : gmap string bool) acc,
    (forall pm e ts, In pm providers -> Provider pm count seedTracks e = Some ts ->
       NoDup (map ID ts) /\ Forall (fun t => flag_of e (ID t) = false) ts) ->
    NoDup (map (fun c => ID (CTrack c)) acc) ->
    Forall (fun c => flag_of cur (ID (CTrack c)) = true) acc ->
    Forall (fun c => flag_of ex (ID (CTrack c)) = false) acc ->
    (forall id, flag_of ex id = true -> flag_of cur id = true) ->
    let out := chain_collect providers count seedTracks cur acc in
    NoDup (map (fun c => ID (CTrack c)) out) /\
    Forall (fun c => flag_of ex (ID (CTrack c)) = false) out.
Proof.
  induction providers as [|pm ps IH]; intros count seeds ex cur acc Hp Hnd Hcur Hex Hsub out;
    subst out; simpl; [auto|].
  assert (Hp' : forall pm' e ts, In pm' ps -> Provider pm' count seeds e = Some ts ->
                NoDup (map ID ts) /\ Forall (fun t => flag_of e (ID t) = false) ts)
    by (intros; eapply Hp; [right|]; eauto).
  destruct (Provider pm count seeds cur) as [cands|] eqn:Hpm; [|apply IH; auto].
  destruct (length cands =? 0)%nat; [apply IH; auto|].
  destruct (Hp pm cur cands (or_introl eq_refl) Hpm) as [Hnc Hfc].
  apply IH; auto.
  - rewrite map_app, map_map. simpl. apply NoDup_app. split; [exact Hnd|]. split; [|exact Hnc].
    intros x Hx Hx'. apply list_elem_of_In in Hx, Hx'.
    apply in_map_iff in Hx as (c & <- & Hc). apply in_map_iff in Hx' as (t & Ht & Htin).
    rewrite List.Forall_forall in Hcur, Hfc.
    specialize (Hcur c Hc). specialize (Hfc t Htin). congruence.
  - apply Forall_app. split.
    + apply List.Forall_forall. intros c Hc. apply flag_of_fold_insert. left.
      rewrite List.Forall_forall in Hcur. auto.
    + apply List.Forall_forall. intros c Hc. apply in_map_iff in Hc as (t & <- & Ht).
      apply flag_of_fold_insert. right. apply in_map. exact Ht.
  - apply Forall_app. split; [exact Hex|].
    apply List.Forall_forall. intros c Hc. apply in_map_iff in Hc as (t & <- & Ht). simpl.
    rewrite List.Forall_forall in Hfc. specialize (Hfc t Ht).
    destruct (flag_of ex (ID t)) eqn:He; [|reflexivity].
    apply Hsub in He. congruence.
  - intros id Hid. apply flag_of_fold_insert. left. auto.
Qed.

(** X20: [ProviderChain.GetCandidates] fails exactly when every provider,
    asked with the caller's exclusion set, fails or returns nothing; and
    when each provider returns tracks with distinct IDs outside the
    exclusion set it is given, the chain's candidates have distinct IDs and
    avoid the caller's exclusion set, across providers too. *)
Theorem ProviderChain_GetCandidates_spec :
  forall (providers : list ProviderWithMetadata) (count : Z) (seedTracks : list Track)
         (excludeIDs : gmap string bool),
    (ProviderChain_GetCandidates providers count seedTracks excludeIDs = None <->
     Forall (fun pm => match Provider pm count seedTracks excludeIDs with
                       | Some (_ :: _) => False | _ => True end) providers) /\
    ((forall pm e ts, In pm providers -> Provider pm count seedTracks e = Some ts ->
        NoDup (map ID ts) /\ Forall (fun t => flag_of e (ID t) = false) ts) ->
     forall candidates,
       ProviderChain_GetCandidates providers count seedTracks excludeIDs = Some candidates ->
       NoDup (map (fun c => ID (CTrack c)) candidates) /\
       Forall (fun c => flag_of excludeIDs (ID (CTrack c)) = false) candidates).
Proof.
  intros providers count seeds ex. unfold ProviderChain_GetCandidates. split.
  - rewrite <- chain_collect_nil.
    destruct (chain_collect providers count seeds ex []) as [|c cs]; simpl; split; congruence.
  - intros Hp candidates.
    destruct (Nat.eqb_spec (length (chain_collect providers count seeds ex [])) 0); [discriminate|].
    intros [= <-]. apply chain_collect_inv; auto; constructor.
Qed.

Definition witness_provider (t : Track) : ProviderWithMetadata :=
  mkProviderWithMetadata
    (fun _ _ e => if flag_of e (ID t) then Some [] else Some [t]) "p".

Lemma ProviderChain_GetCandidates_spec_witness :
  let ps := [witness_provider (mkTrack "t1" "a" ["x"] 5); witness_provider (mkTrack "t1" "a" ["x"] 5)] in
  (ProviderChain_GetCandidates ps 5 [] ∅ = None <->
   Forall (fun pm => match Provider pm 5 [] ∅ with Some (_ :: _) => False | _ => True end) ps) /\
  ((forall pm e ts, In pm ps -> Provider pm 5 [] e = Some ts ->
      NoDup (map ID ts) /\ Forall (fun t => flag_of e (ID t) = false) ts) ->
   forall candidates, ProviderChain_GetCandidates ps 5 [] ∅ = Some candidates ->
   NoDup (map (fun c => ID (CTrack c)) candidates) /\
   Forall (fun c => flag_of ∅ (ID (CTrack c)) = false) candidates).
Proof. apply ProviderChain_GetCandidates_spec. Defined.

(** A BGM track added by the refill: the queue was empty and now holds
    just that track, the rest of the playback untouched; it is requested
    by the system user as BGM, passed the chain as a BGM request, and was
    neither the current track nor queued. *)
Definition bgm_added (filterChain : list Filter) (systemUser : Session) (c c' : Controller) : Prop :=
  exists qt,
    queue c = [] /\ queue c' = [qt] /\ playback_frame c c' /\
    RequesterID (QRequester qt) = SessID systemUser /\
    RequesterKind (QRequester qt) = RequesterTypeBGM /\
    Accepted (Execute filterChain (mkTrackRequest (SessID systemUser) (ID (QTrack qt)))
                (QTrack qt) systemUser RequesterTypeBGM) = true /\
    IsInQueue c (ID (QTrack qt)) = false.

Lemma select_bgm_spec :
  forall cfg filterChain systemUser filtered m excludeSet now,
    match select_bgm cfg filterChain systemUser filtered m excludeSet now with
    | inl m' => listenerReg m' = listenerReg m /\ maxRecentArtists m' = maxRecentArtists m /\
                (playback m' = playback m \/ bgm_added filterChain systemUser (playback m) (playback m'))
    | inr _ => True
    end.
Proof.
  intros cfg fc su. induction filtered as [|c cs IH]; intros m ex now; simpl; [exact I|].
  destruct (IsQueueEmpty (playback m)) eqn:Hempty; simpl; [|auto].
  destruct (IsInQueue (playback m) (ID (CTrack c))) eqn:Hin; [apply IH|].
  destruct (Accepted (Execute fc _ (CTrack c) su RequesterTypeBGM)) eqn:Hacc; simpl; [|apply IH].
  split; [reflexivity|]. split; [reflexivity|]. right.
  set (qt := mkQueuedTrack (CTrack c) (mkRequester (SessID su) (CDisplayName c) RequesterTypeBGM) now).
  exists qt. destruct (Enqueue_frame cfg (playback m) qt now) as [Hf Hq].
  assert (Hq0 : queue (playback m) = []).
  { unfold IsQueueEmpty in Hempty. apply Nat.eqb_eq, length_zero_iff_nil in Hempty. exact Hempty. }
  split; [exact Hq0|]. split; [rewrite Hq, Hq0; reflexivity|]. split; [exact Hf|].
  split; [reflexivity|]. split; [reflexivity|]. split; [exact Hacc|exact Hin].
Qed.

Lemma fill_retries_spec :
  forall cfg filterChain systemUser bgmGetCandidates stateAfterFetch retries retry m excludeSet now,
    let m' := fill_retries cfg filterChain systemUser bgmGetCandidates stateAfterFetch
                retries retry m excludeSet now in
    listenerReg m' = listenerReg m /\ maxRecentArtists m' = maxRecentArtists m /\
    (playback m' = playback m \/
     (bgm_added filterChain systemUser (playback m) (playback m') /\
      exists i, phase (stateAfterFetch i) = PhaseActive /\ accepting (stateAfterFetch i) = Accepting)).
Proof.
  intros cfg fc su get st. induction retries as [|n IH]; intros retry m ex now m'; subst m'; simpl;
    [auto|].
  destruct (get retry ex) as [cands|]; [|auto].
  destruct (length cands =? 0)%nat; [auto|].
  destruct (negb (phase_eqb (phase (st retry)) PhaseActive) ||
            negb match accepting (st retry) with Accepting => true | NotAccepting => false end) eqn:Hst;
    [auto|].
  assert (Hact : phase (st retry) = PhaseActive /\ accepting (st retry) = Accepting).
  { apply orb_false_iff in Hst as [H1 H2]. apply negb_false_iff in H1, H2.
    split; [destruct (phase (st retry)); try reflexivity; vm_compute in H1; congruence|].
    destruct (accepting (st retry)); congruence. }
  destruct (filterByRecentArtists _ _ cands) as [filtered recent].
  pose proof (select_bgm_spec cfg fc su filtered (with_recent recent m) ex now) as Hsel.
  destruct (select_bgm cfg fc su filtered (with_recent recent m) ex now) as [m'|ex'].
  - destruct Hsel as (H1 & H2 & H3). simpl in H1, H2, H3.
    split; [exact H1|]. split; [exact H2|].
    destruct H3 as [H3|H3]; [left; exact H3|right; split; [exact H3|eauto]].
  - destruct (IH (S retry) (with_recent recent m)
                (fold_left (fun ex c => <[ID (CTrack c) := true]> ex) cands ex') now) as (H1 & H2 & H3).
    split; [exact H1|]. split; [exact H2|]. exact H3.
Qed.

(** X21: one BGM refill adds at most one track and only to an empty
    queue: either the playback is left exactly as it was, or the queue went
    from empty to a single BGM track of the system user that passed the
    chain as a BGM request and was not already current or queued, the rest
    of the playback untouched, added after a fetch at which the session was
    active and accepting.  The registry is never touched. *)
Theorem fillQueueWithBGM_adds_at_most_one :
  forall (cfg : Config) (filterChain : list Filter) (systemUser : Session)
         (bgmGetCandidates : nat -> gmap string bool -> option (list CandidateWithSource))
         (stateAfterFetch : nat -> SessionState) (m : SessionManager) (now : Z),
    let m' := fillQueueWithBGM cfg filterChain systemUser bgmGetCandidates stateAfterFetch m now in
    listenerReg m' = listenerReg m /\
    (playback m' = playback m \/
     (bgm_added filterChain systemUser (playback m) (playback m') /\
      exists i, phase (stateAfterFetch i) = PhaseActive /\ accepting (stateAfterFetch i) = Accepting)).
Proof.
  intros cfg fc su get st m now m'. subst m'. unfold fillQueueWithBGM.
  destruct (fill_retries_spec cfg fc su get st 3 0 m
              (fold_left (fun ex id => <[id := true]> ex) (GetAllTrackIDs (playback m)) ∅) now)
    as (H1 & _ & H3).
  split; [exact H1|exact H3].
Qed.

Definition witness_candidates : list CandidateWithSource :=
  [mkCandidate (mkTrack "t1" "song" ["x"] 100) "p"; mkCandidate (mkTrack "t2" "other" ["y"] 100) "p"].

Lemma filterByRecentArtists_spec_witness :
  witness_candidates <> [] /\ fst (filterByRecentArtists 2 ["x"] witness_candidates) <> [].
Proof.
  split; [discriminate|].
  apply (proj1 (filterByRecentArtists_spec 2 ["x"] witness_candidates)). discriminate.
Defined.



Definition witness_acceptance : AcceptanceDoneFilter :=
  mkAcceptanceDoneFilter true (Some 3600) 300 3000 600 0.

Lemma setupFilters_non_user_witness :
  let chain := setupFilters witness_acceptance "JP" (fun _ _ => true) [] true true true None in
  let req := mkTrackRequest "l1" "t1" in
  Accepted (acceptance_done_check witness_acceptance) = false /\
  Execute chain req (QTrack witness_track) witness_session RequesterTypeBGM =
  Execute [MarketFilter "JP" (fun _ _ => true)] req (QTrack witness_track) witness_session RequesterTypeBGM /\
  Execute chain req (QTrack witness_track) witness_session RequesterTypeUser =
  acceptance_done_check witness_acceptance.
Proof.
  split; [reflexivity|]. split.
  - apply (proj1 (setupFilters_non_user witness_acceptance "JP" (fun _ _ => true) [] true true true None
                    (mkTrackRequest "l1" "t1") (QTrack witness_track) witness_session)).
    discriminate.
  - apply (proj2 (setupFilters_non_user witness_acceptance "JP" (fun _ _ => true) [] true true true None
                    (mkTrackRequest "l1" "t1") (QTrack witness_track) witness_session)).
    reflexivity.
Defined.
